(** * QGCSend: the downlink dispatch loop of the ANCL autopilot

    A shallow embedding of [src/drivers/qgclink/QGCSend.cc] and the
    properties of its rate scheduler, encoders, send queue and copy
    operations.

    The MAVLink codec, the datagram socket and the producers of flight state
    (Control, Helicopter, servo_switch, IMU, RCTrans, RadioCalibration, the
    drivers) are collaborators outside the file.  A packet is modelled by the
    arguments of the [mavlink_msg_*_pack] call that builds it; what a
    collaborator returns is read from an environment record. *)

From Stdlib Require Import ZArith String Ascii.
From stdpp Require Import base option list sorting gmap.

Local Open Scope Z_scope.

(** ** C [int] arithmetic *)

Module CInt.

Definition INT_MIN : Z := - 2 ^ 31.
Definition INT_MAX : Z := 2 ^ 31 - 1.

Definition in_range (z : Z) : Prop := INT_MIN <= z <= INT_MAX.

(** Conversion to [int], two's complement; an [int] that is incremented
    past [INT_MAX] wraps the same way. *)
Definition to_int (z : Z) : Z := (z + 2 ^ 31) mod 2 ^ 32 - 2 ^ 31.

(** [a / b] and [a % b] on [int]: truncation toward zero, the remainder
    has the sign of the dividend.  Both are undefined ([None]) for a zero
    divisor and for [INT_MIN / -1]. *)
Definition undefined_division (a b : Z) : bool :=
  (b =? 0) || ((a =? INT_MIN) && (b =? -1)).

Definition div (a b : Z) : option Z :=
  if undefined_division a b then None else Some (Z.quot a b).

Definition rem (a b : Z) : option Z :=
  if undefined_division a b then None else Some (Z.rem a b).

End CInt.

(** ** RateScheduler *)

(** [QGCSend::should_run(int stream_rate, int send_rate, int count)].
    [None] is the undefined behaviour of a division the guard lets through. *)
Definition should_run (stream_rate send_rate count : Z) : option bool :=
  if (stream_rate =? 0) || (stream_rate >? send_rate) then Some false
  else
    period ← CInt.div send_rate stream_rate;
    r ← CInt.rem count period;
    Some (r =? 0).

(** Number of iterations in [start, start + len) at which the stream fires. *)
Fixpoint fires (stream_rate send_rate start : Z) (len : nat) : nat :=
  match len with
  | O => O
  | S len' =>
      ((if should_run stream_rate send_rate start is Some true then 1 else 0)
       + fires stream_rate send_rate (start + 1) len')%nat
  end.

(** ** Data model *)

(** Modelled from the spec: the declarations of the mode enumerations
    ([heli.h], [IMU.h]) are not among the sources.  Each type lists the
    enumerators [QGCSend.cc] names; the last one ([NUM_...]) is the value the
    constructor stores and the spec calls the unset sentinel.  [..._other]
    stands for any enumerator the file does not name. *)
Inductive AUTOPILOT_MODE : Type :=
| MODE_DIRECT_MANUAL | MODE_SCALED_MANUAL | MODE_AUTOMATIC_CONTROL
| AUTOPILOT_MODE_other (n : nat)
| NUM_AUTOPILOT_MODES.

Inductive PILOT_MODE : Type :=
| PILOT_MANUAL | PILOT_AUTO
| PILOT_MODE_other (n : nat)
| NUM_PILOT_MODES.

Inductive GX3_MODE : Type :=
| STARTUP | INIT | RUNNING | ERROR
| GX3_MODE_other (n : nat)
| NUM_GX3_MODES.

Inductive Controller_Mode : Type :=
| Mode_Attitude_Stabilization_PID | Mode_Position_Hold_PID | Mode_Position_Hold_SBF
| Controller_Mode_other (n : nat)
| Num_Controller_Modes.

Inductive Trajectory_Type : Type :=
| Point_Trajectory | Line_Trajectory | Circle_Trajectory
| Trajectory_Type_other (n : nat).

(** The values a mode can take once its producer reports it. *)
Definition valid_autopilot_mode (m : AUTOPILOT_MODE) : bool :=
  if m is NUM_AUTOPILOT_MODES then false else true.
Definition valid_pilot_mode (m : PILOT_MODE) : bool :=
  if m is NUM_PILOT_MODES then false else true.
Definition valid_gx3_mode (m : GX3_MODE) : bool :=
  if m is NUM_GX3_MODES then false else true.
Definition valid_controller_mode (m : Controller_Mode) : bool :=
  if m is Num_Controller_Modes then false else true.
(** [attitude_source] is a [bool]: [true] selects the navigation filter,
    [false] the AHRS, and its signal reports either. *)
Definition valid_attitude_source (b : bool) : bool :=
  match b with
  | true => true
  | false => true
  end.

(** The cached mode fields of a [QGCSend] object. *)
Record ModeSnapshot : Type := {
  servo_source : AUTOPILOT_MODE;
  pilot_mode : PILOT_MODE;
  filter_state : GX3_MODE;
  control_mode : Controller_Mode;
  attitude_source : bool
}.

(** A [float] is carried as an opaque number; no property below computes
    with it. *)
Definition float : Type := Z.

(** [Parameter]: component id, name and value. *)
Record Param : Type := {
  getCompID : Z;
  getParamID : string;
  getValue : float
}.

(** Modelled from the spec: the numeric constants of the MAVLink dialect
    ([mavlink.h]) and of [heli.h] are not among the sources; they are taken
    as parameters. *)
Record Consts : Type := {
  MAV_TYPE_HELICOPTER : Z;
  MAV_AUTOPILOT_UALBERTA : Z;
  MAV_VAR_FLOAT : Z;
  UALBERTA_MODE_MANUAL_DIRECT : Z;
  UALBERTA_MODE_MANUAL_SCALED : Z;
  UALBERTA_MODE_AUTOMATIC_CONTROL : Z;
  UALBERTA_PILOT_MANUAL : Z;
  UALBERTA_PILOT_AUTO : Z;
  UALBERTA_POINT : Z;
  UALBERTA_LINE : Z;
  UALBERTA_CIRCLE : Z;
  UALBERTA_GX3_STARTUP : Z;
  UALBERTA_GX3_INIT : Z;
  UALBERTA_GX3_RUNNING_VALID : Z;
  UALBERTA_GX3_RUNNING_ERROR : Z;
  UALBERTA_ATTITUDE_PID : Z;
  UALBERTA_TRANSLATION_PID : Z;
  UALBERTA_TRANSLATION_SBF : Z;
  UALBERTA_NAV_FILTER : Z;
  UALBERTA_AHRS : Z;
  RADIO_CAL_ID : Z;
  CONTROLLER_ID : Z
}.

(** An outbound packet: the message a [mavlink_msg_*_pack] call builds, by
    its arguments in call order, or a message a driver handed over. *)
Inductive Packet : Type :=
| heartbeat (system_id component_id type autopilot base_mode custom_mode system_status : Z)
| ualberta_sys_status (system_id component_id : Z)
    (mode nav_mode pilot ctrl_mode attitude_filter : Z)
    (engine_rpm rotor_rpm collective : float) (r1 r2 trajectory : Z)
| param_value (system_id component_id : Z) (param_id : string) (value : float)
    (param_type param_count param_index : Z)
| rc_channels_raw (system_id component_id time_boot_ms port : Z) (chan : list Z) (rssi : Z)
| rc_channels_scaled (system_id component_id time_boot_ms port : Z) (chan : list Z) (rssi : Z)
| ualberta_control_effort (system_id component_id : Z) (control : list float)
| radio_calibration (system_id component_id : Z)
    (aileron elevator rudder gyro pitch throttle : list Z)
| driver_message (frame : list Z)
| statustext (system_id component_id severity : Z) (text : string).

(** [uint8_t] narrowing of an argument. *)
Definition to_uint8 (z : Z) : Z := z mod 256.

(** Channels of [RCTrans::getScaledArray()]. *)
Inductive RC_channel : Type := AILERON | ELEVATOR | THROTTLE | RUDDER | GYRO | PITCH.

(** What the collaborators answer during one iteration. *)
Record Env : Type := {
  (* QGCLink: id and the runtime-tunable stream rates *)
  uasId : Z;
  get_heartbeat_rate : Z;
  get_rc_channel_rate : Z;
  get_control_output_rate : Z;
  (* Control *)
  Control_getParameters : list Param;
  get_controller_mode : Controller_Mode;
  get_trajectory_type : Trajectory_Type;
  get_control_effort : list float;
  (* Helicopter *)
  Helicopter_getParameters : list Param;
  get_main_collective : float;
  (* servo_switch *)
  switch_get_pilot_mode : PILOT_MODE;
  getRaw : nat -> Z;
  get_engine_rpm : float;
  get_main_rotor_rpm : float;
  (* RCTrans: each channel times 1e4, narrowed to int16_t *)
  getScaledArray : RC_channel -> Z;
  (* RadioCalibration *)
  getAileron : list Z;
  getElevator : list Z;
  getRudder : list Z;
  getGyro : list Z;
  getPitch : list Z;
  getThrottle : list Z;
  (* Driver::getDrivers(): what each driver's sendMavlinkMsg appends, given
     the system id, the base rate and the iteration *)
  getDrivers : list (Z -> Z -> Z -> list (list Z));
  (* socket.send_to: [Some what] when the n-th call of a flush, on this
     packet, throws boost::system::system_error *)
  send_to : nat -> Packet -> option string
}.

(** The shared request state of the parent [QGCLink]. *)
Record Link : Type := {
  param_recv : bool;
  requested_params : list Param;
  requested_rc_calibration : bool
}.

(** The dispatch thread: the [QGCSend] object, its parent link, the local
    [loop_count], the calls made on the socket with their outcome and the
    warnings handed to the diagnostic sink. *)
Record State : Type := {
  running : bool;
  modes : ModeSnapshot;
  send_queue : list Packet;
  message_queue : list string;
  qgc : Link;
  loop_count : Z;
  socket_log : list (Packet * option string);
  warnings : list string
}.

Definition set_send_queue (q : list Packet) (s : State) : State :=
  {| running := running s; modes := modes s; send_queue := q;
     message_queue := message_queue s; qgc := qgc s; loop_count := loop_count s;
     socket_log := socket_log s; warnings := warnings s |}.

Definition set_modes (m : ModeSnapshot) (s : State) : State :=
  {| running := running s; modes := m; send_queue := send_queue s;
     message_queue := message_queue s; qgc := qgc s; loop_count := loop_count s;
     socket_log := socket_log s; warnings := warnings s |}.

Definition set_message_queue (mq : list string) (s : State) : State :=
  {| running := running s; modes := modes s; send_queue := send_queue s;
     message_queue := mq; qgc := qgc s; loop_count := loop_count s;
     socket_log := socket_log s; warnings := warnings s |}.

Definition set_qgc (l : Link) (s : State) : State :=
  {| running := running s; modes := modes s; send_queue := send_queue s;
     message_queue := message_queue s; qgc := l; loop_count := loop_count s;
     socket_log := socket_log s; warnings := warnings s |}.

(** ** Encoders *)

(** [std::queue::push]. *)
Definition push (p : Packet) (sendq : list Packet) : list Packet := sendq ++ [p].

(** [QGCSend::send_heartbeat]. *)
Definition send_heartbeat (K : Consts) (sendq : list Packet) : list Packet :=
  push (heartbeat 100 200 (MAV_TYPE_HELICOPTER K) (MAV_AUTOPILOT_UALBERTA K) 0 0 0) sendq.

(** The four [switch] statements of [QGCSend::send_status]; 255 is the
    initial value a [default] branch leaves in place. *)
Definition qgc_servo_source (K : Consts) (m : AUTOPILOT_MODE) : Z :=
  match m with
  | MODE_DIRECT_MANUAL => UALBERTA_MODE_MANUAL_DIRECT K
  | MODE_SCALED_MANUAL => UALBERTA_MODE_MANUAL_SCALED K
  | MODE_AUTOMATIC_CONTROL => UALBERTA_MODE_AUTOMATIC_CONTROL K
  | _ => 255
  end.

Definition qgc_pilot_mode (K : Consts) (m : PILOT_MODE) : Z :=
  match m with
  | PILOT_MANUAL => UALBERTA_PILOT_MANUAL K
  | PILOT_AUTO => UALBERTA_PILOT_AUTO K
  | _ => 255
  end.

Definition qgc_trajectory (K : Consts) (t : Trajectory_Type) : Z :=
  match t with
  | Point_Trajectory => UALBERTA_POINT K
  | Line_Trajectory => UALBERTA_LINE K
  | Circle_Trajectory => UALBERTA_CIRCLE K
  | _ => 255
  end.

Definition qgc_filter_state (K : Consts) (m : GX3_MODE) : Z :=
  match m with
  | STARTUP => UALBERTA_GX3_STARTUP K
  | INIT => UALBERTA_GX3_INIT K
  | RUNNING => UALBERTA_GX3_RUNNING_VALID K
  | ERROR => UALBERTA_GX3_RUNNING_ERROR K
  | _ => 255
  end.

Definition qgc_control_mode (K : Consts) (m : Controller_Mode) : Z :=
  match m with
  | Mode_Attitude_Stabilization_PID => UALBERTA_ATTITUDE_PID K
  | Mode_Position_Hold_PID => UALBERTA_TRANSLATION_PID K
  | Mode_Position_Hold_SBF => UALBERTA_TRANSLATION_SBF K
  | _ => 255
  end.

(** The pilot mode [send_status] encodes: the cached one, unless it is
    [NUM_PILOT_MODES], in which case servo_switch is asked. *)
Definition status_pilot_mode (env : Env) (this : ModeSnapshot) : PILOT_MODE :=
  let pilot_mode := pilot_mode this in
  if pilot_mode is NUM_PILOT_MODES then switch_get_pilot_mode env else pilot_mode.

(** [QGCSend::send_status]. *)
Definition send_status (K : Consts) (env : Env) (this : ModeSnapshot)
    (sendq : list Packet) : list Packet :=
  push
    (ualberta_sys_status (uasId env) 200
       (qgc_servo_source K (servo_source this))
       (qgc_filter_state K (filter_state this))
       (qgc_pilot_mode K (status_pilot_mode env this))
       (qgc_control_mode K (control_mode this))
       (if attitude_source this then UALBERTA_NAV_FILTER K else UALBERTA_AHRS K)
       (get_engine_rpm env) (get_main_rotor_rpm env) (get_main_collective env)
       0 0 (qgc_trajectory K (get_trajectory_type env)))
    sendq.

(** [QGCSend::send_param]: the count loop, then the two nested loops that
    pack and push one message per parameter. *)
Definition num_params (plist : list (list Param)) : Z :=
  fold_left (fun n l => CInt.to_int (n + Z.of_nat (length l))) plist 0.

Fixpoint send_param_inner (K : Consts) (uas num : Z) (items : list Param)
    (index : Z) (sendq : list Packet) : Z * list Packet :=
  match items with
  | [] => (index, sendq)
  | p :: items' =>
      send_param_inner K uas num items' (CInt.to_int (index + 1))
        (push (param_value uas (to_uint8 (getCompID p)) (getParamID p) (getValue p)
                 (MAV_VAR_FLOAT K) num index) sendq)
  end.

Fixpoint send_param_outer (K : Consts) (uas num : Z) (plist : list (list Param))
    (index : Z) (sendq : list Packet) : Z * list Packet :=
  match plist with
  | [] => (index, sendq)
  | items :: plist' =>
      let '(index', sendq') := send_param_inner K uas num items index sendq in
      send_param_outer K uas num plist' index' sendq'
  end.

Definition parameter_sources (env : Env) : list (list Param) :=
  [Control_getParameters env; Helicopter_getParameters env].

Definition send_param (K : Consts) (env : Env) (sendq : list Packet) : list Packet :=
  let plist := parameter_sources env in
  (send_param_outer K (uasId env) (num_params plist) plist 0 sendq).2.

(** [QGCSend::send_requested_params]: the loop runs until the request queue
    is empty; the result is the request queue it leaves and the send queue. *)
Fixpoint send_requested_params (K : Consts) (uas : Z) (requested : list Param)
    (sendq : list Packet) : list Param * list Packet :=
  match requested with
  | [] => (requested, sendq)
  | front :: requested' =>
      send_requested_params K uas requested'
        (push (param_value uas (to_uint8 (getCompID front)) (getParamID front)
                 (getValue front) (MAV_VAR_FLOAT K) 1 (-1)) sendq)
  end.

(** [QGCSend::send_rc_calibration]. *)
Definition send_rc_calibration (K : Consts) (env : Env) (sendq : list Packet) : list Packet :=
  push (radio_calibration (uasId env) (RADIO_CAL_ID K)
          (getAileron env) (getElevator env) (getRudder env)
          (getGyro env) (getPitch env) (getThrottle env)) sendq.

(** [QGCSend::send_rc_channels]: the raw message, then the scaled one. *)
Definition send_rc_channels (env : Env) (sendq : list Packet) : list Packet :=
  let raw := getRaw env in
  let sendq :=
    push (rc_channels_raw 100 200 0 0
            [raw 0%nat; raw 1%nat; raw 2%nat; raw 3%nat;
             raw 4%nat; raw 5%nat; raw 6%nat; raw 7%nat] 0) sendq in
  let scaled := getScaledArray env in
  push (rc_channels_scaled 100 200 0 0
          [scaled AILERON; scaled ELEVATOR; scaled THROTTLE;
           scaled RUDDER; scaled GYRO; scaled PITCH; 0; 0] 0) sendq.

(** [QGCSend::send_control_effort]. *)
Definition send_control_effort (K : Consts) (env : Env) (sendq : list Packet) : list Packet :=
  push (ualberta_control_effort (uasId env) (CONTROLLER_ID K) (get_control_effort env)) sendq.

(** [std::string::resize(n)]: cut to [n] characters or fill with NUL. *)
Fixpoint resize (n : nat) (s : string) : string :=
  match n with
  | O => EmptyString
  | S n' =>
      match s with
      | EmptyString => String Ascii.zero (resize n' EmptyString)
      | String c s' => String c (resize n' s')
      end
  end.

(** [boost::algorithm::starts_with(input, test)]. *)
Definition starts_with (input test : string) : bool := String.prefix test input.

(** [QGCSend::send_console_message]. *)
Definition send_console_message (env : Env) (message : string)
    (sendq : list Packet) : list Packet :=
  let console := resize 50 message in
  push (statustext (uasId env) 0
          (if starts_with console "Critical" then 255 else 0) console) sendq.

(** ** The dispatch loop, [QGCSend::send] *)

Definition send_rate : Z := 200.

(** The driver loop: every message of every driver is pushed. *)
Definition push_driver_messages (msgs : list (list Z)) (sendq : list Packet) : list Packet :=
  fold_left (fun q msg => push (driver_message msg) q) msgs sendq.

Definition send_driver_messages (env : Env) (count : Z) (sendq : list Packet) : list Packet :=
  fold_left (fun q driver => push_driver_messages (driver (uasId env) send_rate count) q)
    (getDrivers env) sendq.

(** The body of the loop up to the [try] block: the encoders run in the
    order of the source, each on the queue the previous one left.  The
    result is [None] when a [should_run] call is undefined. *)
Definition enqueue (K : Consts) (env : Env) (s : State) : option State :=
  let count := loop_count s in
  let q := send_queue s in
  hb ← should_run (get_heartbeat_rate env) send_rate count;
  let q := if hb : bool then send_status K env (modes s) (send_heartbeat K q) else q in
  (* the parameter list latch is read and cleared *)
  let recv := param_recv (qgc s) in
  let q := if recv then send_param K env q else q in
  rc ← should_run (get_rc_channel_rate env) send_rate count;
  let q := if rc : bool then send_rc_channels env q else q in
  ce ← should_run (get_control_output_rate env) send_rate count;
  let q := if ce : bool then send_control_effort K env q else q in
  let '(requested, q) :=
    match requested_params (qgc s) with
    | [] => ([], q)
    | _ :: _ => send_requested_params K (uasId env) (requested_params (qgc s)) q
    end in
  (* the calibration latch is read, served and cleared *)
  let q := if requested_rc_calibration (qgc s) then send_rc_calibration K env q else q in
  let q := send_driver_messages env count q in
  (* at most one console message: message_queue_pop *)
  let '(mq, q) :=
    match message_queue s with
    | [] => ([], q)
    | message :: mq' => (mq', send_console_message env message q)
    end in
  Some {| running := running s; modes := modes s; send_queue := q;
          message_queue := mq;
          qgc := {| param_recv := false; requested_params := requested;
                    requested_rc_calibration := false |};
          loop_count := count;
          socket_log := socket_log s; warnings := warnings s |}.

(** How a block of statements ends. *)
Inductive completion : Type :=
| normal
| throws (what : string).

(** [while (!send_queue->empty()) { socket.send_to(front); pop(); }]: the
    calls made on the socket, the queue left, and how the loop ends.  A
    throwing [send_to] leaves the loop before [pop]. *)
Fixpoint flush_loop (send_to : nat -> Packet -> option string) (n : nat)
    (sendq : list Packet) : list (Packet * option string) * list Packet * completion :=
  match sendq with
  | [] => ([], [], normal)
  | front :: sendq' =>
      match send_to n front with
      | Some what => ([(front, Some what)], sendq, throws what)
      | None =>
          let '(calls, rest, c) := flush_loop send_to (S n) sendq' in
          ((front, None) :: calls, rest, c)
      end
  end.

(** The [try] block with its handler: a [system_error] is reported through
    [qgc->warning()] and the statement completes normally.

    Modelled from the spec: [Debug.h] is not among the sources; the warning
    goes to a diagnostic sink that only collects what it is handed. *)
Definition flush (env : Env) (s : State) : State * completion :=
  let '(calls, rest, c) := flush_loop (send_to env) 0 (send_queue s) in
  ({| running := running s; modes := modes s; send_queue := rest;
      message_queue := message_queue s; qgc := qgc s; loop_count := loop_count s;
      socket_log := socket_log s ++ calls;
      warnings := match c with
                  | normal => warnings s
                  | throws what => warnings s ++ [what]
                  end |},
   normal).

(** One turn of [while (true)]. *)
Definition iteration (K : Consts) (env : Env) (s : State) : option (State * completion) :=
  s1 ← enqueue K env s;
  let '(s2, c) := flush env s1 in
  match c with
  | normal =>
      Some ({| running := running s2; modes := modes s2; send_queue := send_queue s2;
               message_queue := message_queue s2; qgc := qgc s2;
               loop_count := CInt.to_int (loop_count s2 + 1);
               socket_log := socket_log s2; warnings := warnings s2 |}, normal)
  | throws what => Some (s2, throws what)
  end.

(** The packets the socket accepted, and the packets it was called with. *)
Definition delivered (calls : list (Packet * option string)) : list Packet :=
  omap (fun call => if call.2 is None then Some call.1 else None) calls.

Definition attempted (calls : list (Packet * option string)) : list Packet :=
  map fst calls.

(** [QGCSend::QGCSend(QGCLink* parent)], before [send] is entered. *)
Definition initial_modes : ModeSnapshot :=
  {| servo_source := NUM_AUTOPILOT_MODES; pilot_mode := NUM_PILOT_MODES;
     filter_state := NUM_GX3_MODES; control_mode := Num_Controller_Modes;
     attitude_source := true |}.

Definition constructed (parent : Link) : State :=
  {| running := false; modes := initial_modes; send_queue := [];
     message_queue := []; qgc := parent; loop_count := 0;
     socket_log := []; warnings := [] |}.

(** Modelled from the spec: the setters of the cached fields and
    [message_queue_push] are defined in [QGCSend.h], which is not among the
    sources: one setter per field, storing its argument, and a push at the
    back of the console mailbox. *)
Definition set_servo_source (v : AUTOPILOT_MODE) (m : ModeSnapshot) : ModeSnapshot :=
  {| servo_source := v; pilot_mode := pilot_mode m; filter_state := filter_state m;
     control_mode := control_mode m; attitude_source := attitude_source m |}.
Definition set_pilot_mode (v : PILOT_MODE) (m : ModeSnapshot) : ModeSnapshot :=
  {| servo_source := servo_source m; pilot_mode := v; filter_state := filter_state m;
     control_mode := control_mode m; attitude_source := attitude_source m |}.
Definition set_filter_state (v : GX3_MODE) (m : ModeSnapshot) : ModeSnapshot :=
  {| servo_source := servo_source m; pilot_mode := pilot_mode m; filter_state := v;
     control_mode := control_mode m; attitude_source := attitude_source m |}.
Definition set_control_mode (v : Controller_Mode) (m : ModeSnapshot) : ModeSnapshot :=
  {| servo_source := servo_source m; pilot_mode := pilot_mode m;
     filter_state := filter_state m; control_mode := v;
     attitude_source := attitude_source m |}.
Definition set_attitude_source (v : bool) (m : ModeSnapshot) : ModeSnapshot :=
  {| servo_source := servo_source m; pilot_mode := pilot_mode m;
     filter_state := filter_state m; control_mode := control_mode m;
     attitude_source := v |}.
Definition message_queue_push (message : string) (mq : list string) : list string :=
  mq ++ [message].

(** What happens to the dispatch thread and the state it shares: [send]
    starts, the loop takes a turn, a producer raises one of the signals
    [send] connects, or the receiving side of the link latches a request. *)
Inductive Event : Type :=
| enter_send (env : Env)                       (* [send] starts *)
| turn (env : Env)                             (* one turn of the loop *)
| mode_changed (v : Controller_Mode)           (* Control::mode_changed *)
| servo_source_changed (v : AUTOPILOT_MODE)    (* MainApp::mode_changed *)
| pilot_mode_changed (v : PILOT_MODE)          (* servo_switch::pilot_mode_changed *)
| gx3_mode_changed (v : GX3_MODE)              (* IMU::gx3_mode_changed *)
| attitude_source_changed (v : bool)           (* QGCLink::attitude_source *)
| console_signal (message : string)            (* Debug::warningSignal, criticalSignal *)
| param_list_request                           (* the peer asks for all parameters *)
| param_request (p : Param)                    (* the peer asks for one parameter *)
| rc_calibration_request.                      (* the peer asks for the calibration *)

(** The prologue of [send]: the initial modes are read from their
    producers, then the signals are connected. *)
Definition start (env : Env) (s : State) : State :=
  {| running := true;
     modes := set_control_mode (get_controller_mode env)
                (set_pilot_mode (switch_get_pilot_mode env) (modes s));
     send_queue := send_queue s; message_queue := message_queue s; qgc := qgc s;
     loop_count := 0; socket_log := socket_log s; warnings := warnings s |}.

(** A signal reaches the object only once [send] has connected it. *)
Definition deliver (f : State -> State) (s : State) : State :=
  if running s then f s else s.

Definition step (K : Consts) (e : Event) (s : State) : option State :=
  match e with
  | enter_send env => Some (if running s then s else start env s)
  | turn env => if running s then fst <$> iteration K env s else Some s
  | mode_changed v => Some (deliver (fun s => set_modes (set_control_mode v (modes s)) s) s)
  | servo_source_changed v =>
      Some (deliver (fun s => set_modes (set_servo_source v (modes s)) s) s)
  | pilot_mode_changed v =>
      Some (deliver (fun s => set_modes (set_pilot_mode v (modes s)) s) s)
  | gx3_mode_changed v =>
      Some (deliver (fun s => set_modes (set_filter_state v (modes s)) s) s)
  | attitude_source_changed v =>
      Some (deliver (fun s => set_modes (set_attitude_source v (modes s)) s) s)
  | console_signal message =>
      Some (deliver (fun s => set_message_queue (message_queue_push message (message_queue s)) s) s)
  | param_list_request =>
      Some (set_qgc {| param_recv := true; requested_params := requested_params (qgc s);
                       requested_rc_calibration := requested_rc_calibration (qgc s) |} s)
  | param_request p =>
      Some (set_qgc {| param_recv := param_recv (qgc s);
                       requested_params := requested_params (qgc s) ++ [p];
                       requested_rc_calibration := requested_rc_calibration (qgc s) |} s)
  | rc_calibration_request =>
      Some (set_qgc {| param_recv := param_recv (qgc s);
                       requested_params := requested_params (qgc s);
                       requested_rc_calibration := true |} s)
  end.

Fixpoint run (K : Consts) (trace : list Event) (s : State) : option State :=
  match trace with
  | [] => Some s
  | e :: trace' => s' ← step K e s; run K trace' s'
  end.

(** ** Copy construction and assignment

    The copy operations compare and store addresses, so here a [QGCSend]
    object lives at an address and owns its send queue through a pointer. *)

Module Object.

Record QGCSend : Type := {
  qgc : option nat;                        (* QGCLink* qgc, NULL is None *)
  cache : ModeSnapshot;
  startTime : Z;
  send_queue : nat;                        (* std::queue<...>* send_queue *)
  message_queue : list string;
  attitude_source_connection : option nat  (* None: not connected *)
}.

Record Memory : Type := {
  objects : gmap nat QGCSend;
  queues : gmap nat (list Packet)
}.

(** [new std::queue<...>(content)]. *)
Definition new_queue (content : list Packet) (m : Memory) : nat * Memory :=
  let a := fresh (dom (queues m)) in
  (a, {| objects := objects m; queues := <[a := content]> (queues m) |}).

Definition store (this : nat) (o : QGCSend) (m : Memory) : Memory :=
  {| objects := <[this := o]> (objects m); queues := queues m |}.

(** [QGCSend::QGCSend(QGCLink* parent)] at address [this]; [now] is the
    clock reading. *)
Definition construct (this : nat) (parent : option nat) (now : Z) (m : Memory) : Memory :=
  let '(a, m) := new_queue [] m in
  store this
    {| qgc := parent; cache := initial_modes; startTime := now; send_queue := a;
       message_queue := []; attitude_source_connection := None |} m.

(** [QGCSend::QGCSend(const QGCSend& other)] at address [this].  The
    members outside the initialiser list and the body are default
    constructed. *)
Definition copy_construct (this other : nat) (m : Memory) : option Memory :=
  o ← objects m !! other;
  content ← queues m !! send_queue o;
  let '(a, m) := new_queue content m in
  Some (store this
          {| qgc := qgc o;
             cache := {| servo_source := servo_source (cache o);
                         pilot_mode := pilot_mode (cache o);
                         filter_state := filter_state (cache o);
                         control_mode := control_mode (cache o);
                         attitude_source := attitude_source (cache o) |};
             startTime := startTime o;
             send_queue := a;
             message_queue := [];
             attitude_source_connection := None |} m).

(** [QGCSend::operator=(const QGCSend& other)] on the object at [this]. *)
Definition assign (this other : nat) (m : Memory) : option Memory :=
  if decide (this = other) then Some m
  else
    t ← objects m !! this;
    o ← objects m !! other;
    Some (store this
            {| qgc := qgc t;
               cache := {| servo_source := servo_source (cache o);
                           pilot_mode := pilot_mode (cache o);
                           filter_state := filter_state (cache o);
                           control_mode := control_mode (cache o);
                           attitude_source := attitude_source (cache o) |};
               startTime := startTime t;
               send_queue := send_queue t;
               message_queue := message_queue t;
               attitude_source_connection := attitude_source_connection t |} m).

End Object.

(** ** Statements *)

(** The schedule as the specification words it, at stream rate [r], base
    rate [b] and iteration [n]. *)
Definition schedule_law (r b n : Z) : Prop :=
  (r = 0 \/ b < r -> should_run r b n = Some false) /\
  (r <> 0 /\ r <= b ->
     should_run r b n = Some (n mod (b / r) =? 0) /\
     should_run r b 0 = Some true /\
     (b mod r = 0 ->
        (should_run r b n = Some true <-> exists k, 0 <= k /\ n = k * (b / r)) /\
        Z.of_nat (fires r b n (Z.to_nat b)) = r)).

(** The reply to a full parameter request: one packet per parameter of
    [all], numbered from [index] on, each carrying the count [num]. *)
Definition dump_packets (K : Consts) (uas num index : Z) (all : list Param) : list Packet :=
  imap (fun i p =>
          param_value uas (to_uint8 (getCompID p)) (getParamID p) (getValue p)
            (MAV_VAR_FLOAT K) num (index + Z.of_nat i)) all.

(** The reply to a single-parameter request. *)
Definition reply_packet (K : Consts) (uas : Z) (p : Param) : Packet :=
  param_value uas (to_uint8 (getCompID p)) (getParamID p) (getValue p)
    (MAV_VAR_FLOAT K) 1 (-1).

(** Whether a string holds a NUL character. *)
Fixpoint has_nul (s : string) : bool :=
  match s with
  | EmptyString => false
  | String c s' => if ascii_dec c Ascii.zero then true else has_nul s'
  end.

(** The logical streams, in the order the loop serves them. *)
Inductive Stream : Type :=
| status_stream | dump_stream | rc_stream | effort_stream
| reply_stream | calibration_stream | driver_stream | console_stream.

Definition precedence (k : Stream) : nat :=
  match k with
  | status_stream => 0 | dump_stream => 1 | rc_stream => 2 | effort_stream => 3
  | reply_stream => 4 | calibration_stream => 5 | driver_stream => 6
  | console_stream => 7
  end.

(** The stream a packet belongs to; a parameter value with index -1 is a
    single-parameter reply. *)
Definition stream_of (p : Packet) : Stream :=
  match p with
  | heartbeat _ _ _ _ _ _ _ => status_stream
  | ualberta_sys_status _ _ _ _ _ _ _ _ _ _ _ _ _ => status_stream
  | param_value _ _ _ _ _ _ index => if index =? -1 then reply_stream else dump_stream
  | rc_channels_raw _ _ _ _ _ _ => rc_stream
  | rc_channels_scaled _ _ _ _ _ _ => rc_stream
  | ualberta_control_effort _ _ _ => effort_stream
  | radio_calibration _ _ _ _ _ _ _ _ => calibration_stream
  | driver_message _ => driver_stream
  | statustext _ _ _ _ => console_stream
  end.

Definition by_precedence (p1 p2 : Packet) : Prop :=
  (precedence (stream_of p1) <= precedence (stream_of p2))%nat.

(** A list in precedence order whose packets all come at or after stream [k]. *)
Definition sorted_from (k : Stream) (l : list Packet) : Prop :=
  StronglySorted by_precedence l /\
  Forall (fun p => (precedence k <= precedence (stream_of p))%nat) l.

(** Whether a scheduled stream is due at iteration [count]. *)
Definition due (rate count : Z) : bool :=
  if should_run rate send_rate count is Some true then true else false.

(** What each stream contributes to the queue in the iteration that starts
    in state [s]. *)
Definition status_part (K : Consts) (env : Env) (s : State) : list Packet :=
  if due (get_heartbeat_rate env) (loop_count s)
  then send_status K env (modes s) (send_heartbeat K []) else [].

Definition dump_part (K : Consts) (env : Env) (s : State) : list Packet :=
  if param_recv (qgc s) then send_param K env [] else [].

Definition rc_part (env : Env) (s : State) : list Packet :=
  if due (get_rc_channel_rate env) (loop_count s) then send_rc_channels env [] else [].

Definition effort_part (K : Consts) (env : Env) (s : State) : list Packet :=
  if due (get_control_output_rate env) (loop_count s)
  then send_control_effort K env [] else [].

Definition reply_part (K : Consts) (env : Env) (s : State) : list Packet :=
  map (reply_packet K (uasId env)) (requested_params (qgc s)).

Definition calibration_part (K : Consts) (env : Env) (s : State) : list Packet :=
  if requested_rc_calibration (qgc s) then send_rc_calibration K env [] else [].

Definition driver_part (env : Env) (s : State) : list Packet :=
  driver ← getDrivers env; driver_message <$> driver (uasId env) send_rate (loop_count s).

Definition console_part (env : Env) (s : State) : list Packet :=
  match message_queue s with
  | [] => []
  | message :: _ => send_console_message env message []
  end.

Definition enqueued (K : Consts) (env : Env) (s : State) : list Packet :=
  status_part K env s ++ dump_part K env s ++ rc_part env s ++ effort_part K env s
  ++ reply_part K env s ++ calibration_part K env s ++ driver_part env s
  ++ console_part env s.

(** The rates are not negative. *)
Definition scheduled (env : Env) : Prop :=
  0 <= get_heartbeat_rate env /\ 0 <= get_rc_channel_rate env /\
  0 <= get_control_output_rate env.

(** The rates are not negative and the parameters can be counted in an
    [int]. *)
Definition well_formed (env : Env) : Prop :=
  scheduled env /\
  Z.of_nat (length (Control_getParameters env ++ Helicopter_getParameters env))
    <= CInt.INT_MAX.

(** A parent link with no request pending. *)
Definition idle_link : Link :=
  {| param_recv := false; requested_params := []; requested_rc_calibration := false |}.

(** The state the loop body reaches before the flush. *)
Definition assembled (K : Consts) (env : Env) (s : State) : State :=
  {| running := running s; modes := modes s;
     send_queue := send_queue s ++ enqueued K env s;
     message_queue := tail (message_queue s);
     qgc := idle_link;
     loop_count := loop_count s;
     socket_log := socket_log s; warnings := warnings s |}.

(** The socket accepts every datagram. *)
Definition healthy (env : Env) : Prop :=
  scheduled env /\ forall n p, send_to env n p = None.

Definition fault_free (e : Event) : Prop :=
  match e with
  | turn env => healthy env
  | _ => True
  end.

(** The calls of a flush that the socket accepted for every packet of [l]. *)
Definition accepted (l : list Packet) : list (Packet * option string) :=
  (fun p => (p, None)) <$> l.

(** The reading of the specification: a fault on one packet loses that
    packet only; every queued packet is handed to the socket, nothing stays
    queued and the flush completes normally. *)
Definition drops_failed_and_continues (env : Env) (s : State) : Prop :=
  exists calls,
    socket_log (flush env s).1 = socket_log s ++ calls /\
    attempted calls = send_queue s /\
    send_queue (flush env s).1 = [] /\
    (flush env s).2 = normal.

(** Kinds of events. *)
Definition enters_send (e : Event) : bool := if e is enter_send _ then true else false.
Definition notifies_servo_source (e : Event) : bool :=
  if e is servo_source_changed _ then true else false.
Definition notifies_pilot_mode (e : Event) : bool :=
  if e is pilot_mode_changed _ then true else false.
Definition notifies_filter_state (e : Event) : bool :=
  if e is gx3_mode_changed _ then true else false.
Definition notifies_control_mode (e : Event) : bool :=
  if e is mode_changed _ then true else false.
Definition notifies_attitude_source (e : Event) : bool :=
  if e is attitude_source_changed _ then true else false.

(** A trace with no event of the given kind. *)
Definition without (kind : Event -> bool) (trace : list Event) : Prop :=
  Forall (fun e => kind e = false) trace.

(** The iterations of the trace have defined schedules. *)
Definition runnable (e : Event) : Prop :=
  match e with
  | turn env => scheduled env
  | _ => True
  end.

(** The reading of the specification: every cached field holds a value
    that is not a valid one. *)
Definition reads_unset (m : ModeSnapshot) : Prop :=
  valid_autopilot_mode (servo_source m) = false /\
  valid_pilot_mode (pilot_mode m) = false /\
  valid_gx3_mode (filter_state m) = false /\
  valid_controller_mode (control_mode m) = false /\
  valid_attitude_source (attitude_source m) = false.

(** The reading of the specification: the unset value of [control_mode]
    triggers the query of the pilot-mode producer. *)
Definition status_pilot_mode_as_specified (env : Env) (this : ModeSnapshot) : PILOT_MODE :=
  if control_mode this is Num_Controller_Modes then switch_get_pilot_mode env
  else pilot_mode this.

(** The same collaborators, with another answer of servo_switch or of
    Control. *)
Definition with_switch_pilot_mode (v : PILOT_MODE) (env : Env) : Env :=
  {| uasId := uasId env; get_heartbeat_rate := get_heartbeat_rate env;
     get_rc_channel_rate := get_rc_channel_rate env;
     get_control_output_rate := get_control_output_rate env;
     Control_getParameters := Control_getParameters env;
     get_controller_mode := get_controller_mode env;
     get_trajectory_type := get_trajectory_type env;
     get_control_effort := get_control_effort env;
     Helicopter_getParameters := Helicopter_getParameters env;
     get_main_collective := get_main_collective env;
     switch_get_pilot_mode := v; getRaw := getRaw env;
     get_engine_rpm := get_engine_rpm env; get_main_rotor_rpm := get_main_rotor_rpm env;
     getScaledArray := getScaledArray env;
     getAileron := getAileron env; getElevator := getElevator env;
     getRudder := getRudder env; getGyro := getGyro env; getPitch := getPitch env;
     getThrottle := getThrottle env;
     getDrivers := getDrivers env; send_to := send_to env |}.

Definition with_controller_mode (v : Controller_Mode) (env : Env) : Env :=
  {| uasId := uasId env; get_heartbeat_rate := get_heartbeat_rate env;
     get_rc_channel_rate := get_rc_channel_rate env;
     get_control_output_rate := get_control_output_rate env;
     Control_getParameters := Control_getParameters env;
     get_controller_mode := v;
     get_trajectory_type := get_trajectory_type env;
     get_control_effort := get_control_effort env;
     Helicopter_getParameters := Helicopter_getParameters env;
     get_main_collective := get_main_collective env;
     switch_get_pilot_mode := switch_get_pilot_mode env; getRaw := getRaw env;
     get_engine_rpm := get_engine_rpm env; get_main_rotor_rpm := get_main_rotor_rpm env;
     getScaledArray := getScaledArray env;
     getAileron := getAileron env; getElevator := getElevator env;
     getRudder := getRudder env; getGyro := getGyro env; getPitch := getPitch env;
     getThrottle := getThrottle env;
     getDrivers := getDrivers env; send_to := send_to env |}.

(** ** Sample inputs *)

Definition K0 : Consts :=
  {| MAV_TYPE_HELICOPTER := 4; MAV_AUTOPILOT_UALBERTA := 9; MAV_VAR_FLOAT := 9;
     UALBERTA_MODE_MANUAL_DIRECT := 1; UALBERTA_MODE_MANUAL_SCALED := 2;
     UALBERTA_MODE_AUTOMATIC_CONTROL := 3;
     UALBERTA_PILOT_MANUAL := 1; UALBERTA_PILOT_AUTO := 2;
     UALBERTA_POINT := 0; UALBERTA_LINE := 1; UALBERTA_CIRCLE := 2;
     UALBERTA_GX3_STARTUP := 0; UALBERTA_GX3_INIT := 1;
     UALBERTA_GX3_RUNNING_VALID := 2; UALBERTA_GX3_RUNNING_ERROR := 3;
     UALBERTA_ATTITUDE_PID := 0; UALBERTA_TRANSLATION_PID := 1;
     UALBERTA_TRANSLATION_SBF := 2;
     UALBERTA_NAV_FILTER := 1; UALBERTA_AHRS := 0;
     RADIO_CAL_ID := 30; CONTROLLER_ID := 20 |}.

Definition sample_param (comp : Z) (name : string) (v : float) : Param :=
  {| getCompID := comp; getParamID := name; getValue := v |}.

Definition quiet_env : Env :=
  {| uasId := 100; get_heartbeat_rate := 0; get_rc_channel_rate := 0;
     get_control_output_rate := 0;
     Control_getParameters := []; get_controller_mode := Mode_Attitude_Stabilization_PID;
     get_trajectory_type := Point_Trajectory; get_control_effort := [];
     Helicopter_getParameters := []; get_main_collective := 0;
     switch_get_pilot_mode := PILOT_AUTO; getRaw := fun _ => 1500;
     get_engine_rpm := 0; get_main_rotor_rpm := 0;
     getScaledArray := fun _ => 0;
     getAileron := []; getElevator := []; getRudder := []; getGyro := [];
     getPitch := []; getThrottle := [];
     getDrivers := []; send_to := fun _ _ => None |}.

(** Control reports three parameters, Helicopter two. *)
Definition dump_env : Env :=
  {| uasId := 100; get_heartbeat_rate := 0; get_rc_channel_rate := 0;
     get_control_output_rate := 0;
     Control_getParameters :=
       [sample_param 20 "ROLL_KP" 11; sample_param 20 "ROLL_KD" 12;
        sample_param 20 "ROLL_KI" 13];
     get_controller_mode := Mode_Attitude_Stabilization_PID;
     get_trajectory_type := Point_Trajectory; get_control_effort := [];
     Helicopter_getParameters :=
       [sample_param 10 "MASS" 21; sample_param 10 "GRAVITY" 22];
     get_main_collective := 0;
     switch_get_pilot_mode := PILOT_AUTO; getRaw := fun _ => 1500;
     get_engine_rpm := 0; get_main_rotor_rpm := 0;
     getScaledArray := fun _ => 0;
     getAileron := []; getElevator := []; getRudder := []; getGyro := [];
     getPitch := []; getThrottle := [];
     getDrivers := []; send_to := fun _ _ => None |}.

(** Every stream has something to send: all rates fire at iteration 0, one
    driver hands over two messages, and the state below has every request
    latched. *)
Definition busy_env : Env :=
  {| uasId := 100; get_heartbeat_rate := 2; get_rc_channel_rate := 10;
     get_control_output_rate := 200;
     Control_getParameters := [sample_param 20 "ROLL_KP" 11];
     get_controller_mode := Mode_Attitude_Stabilization_PID;
     get_trajectory_type := Point_Trajectory; get_control_effort := [0; 0; 0; 0; 0; 0];
     Helicopter_getParameters := [sample_param 10 "MASS" 21];
     get_main_collective := 0;
     switch_get_pilot_mode := PILOT_AUTO; getRaw := fun _ => 1500;
     get_engine_rpm := 0; get_main_rotor_rpm := 0;
     getScaledArray := fun _ => 0;
     getAileron := [1000; 1500; 2000]; getElevator := [1000; 1500; 2000];
     getRudder := [1000; 1500; 2000]; getGyro := [1000; 2000];
     getPitch := [1000; 1250; 1500; 1750; 2000];
     getThrottle := [1000; 1250; 1500; 1750; 2000];
     getDrivers := [fun _ _ _ => [[7]; [8]]]; send_to := fun _ _ => None |}.

Definition busy_state : State :=
  {| running := true; modes := initial_modes; send_queue := [];
     message_queue := ["Critical: overheat"%string; "Warning: low battery"%string];
     qgc := {| param_recv := true;
               requested_params := [sample_param 20 "ROLL_KD" 12];
               requested_rc_calibration := true |};
     loop_count := 0; socket_log := []; warnings := [] |}.

(** A trace with two healthy iterations. *)
Definition busy_trace : list Event :=
  [enter_send quiet_env; console_signal "Critical: overheat"; param_list_request;
   turn busy_env; param_request (sample_param 20 "ROLL_KD" 12); turn busy_env].

(** Two console messages are pushed once [send] runs. *)
Definition console_pushes : list Event :=
  [enter_send quiet_env; console_signal "Critical: overheat";
   console_signal "Warning: low battery"].

Definition sent_after (K : Consts) (trace : list Event) : option (list Packet) :=
  (fun s => delivered (socket_log s)) <$> run K trace (constructed idle_link).

Definition with_send_to (f : nat -> Packet -> option string) (env : Env) : Env :=
  {| uasId := uasId env; get_heartbeat_rate := get_heartbeat_rate env;
     get_rc_channel_rate := get_rc_channel_rate env;
     get_control_output_rate := get_control_output_rate env;
     Control_getParameters := Control_getParameters env;
     get_controller_mode := get_controller_mode env;
     get_trajectory_type := get_trajectory_type env;
     get_control_effort := get_control_effort env;
     Helicopter_getParameters := Helicopter_getParameters env;
     get_main_collective := get_main_collective env;
     switch_get_pilot_mode := switch_get_pilot_mode env; getRaw := getRaw env;
     get_engine_rpm := get_engine_rpm env; get_main_rotor_rpm := get_main_rotor_rpm env;
     getScaledArray := getScaledArray env;
     getAileron := getAileron env; getElevator := getElevator env;
     getRudder := getRudder env; getGyro := getGyro env; getPitch := getPitch env;
     getThrottle := getThrottle env;
     getDrivers := getDrivers env; send_to := f |}.

(** The socket refuses the second datagram of a flush. *)
Definition second_fails (n : nat) (p : Packet) : option string :=
  if Nat.eqb n 1 then Some "Network is unreachable"%string else None.

Definition faulty_env : Env := with_send_to second_fails quiet_env.

Definition three_queued : State :=
  set_send_queue [driver_message [1]; driver_message [2]; driver_message [3]]
    (start quiet_env (constructed idle_link)).

(** The loop runs for a while and no mode notification arrives. *)
Definition silent_trace : list Event :=
  [console_signal "early"; enter_send quiet_env; turn quiet_env; param_list_request;
   turn busy_env].

(** The pilot mode is cached and the control mode is not; servo_switch (in
    [quiet_env]) reports [PILOT_AUTO]. *)
Definition control_unset : ModeSnapshot :=
  {| servo_source := MODE_DIRECT_MANUAL; pilot_mode := PILOT_MANUAL;
     filter_state := RUNNING; control_mode := Num_Controller_Modes;
     attitude_source := true |}.

(** The control mode is cached and the pilot mode is not. *)
Definition pilot_unset : ModeSnapshot :=
  {| servo_source := MODE_DIRECT_MANUAL; pilot_mode := NUM_PILOT_MODES;
     filter_state := RUNNING; control_mode := Mode_Position_Hold_PID;
     attitude_source := true |}.

(** A memory holding one sender, built at address 1 when the clock reads
    [now]. *)
Definition empty_memory : Object.Memory :=
  {| Object.objects := ∅; Object.queues := ∅ |}.

Definition one_sender (now : Z) : Object.Memory :=
  Object.construct 1 None now empty_memory.

(** ** The destructor and the logging front end *)

(** [QGCSend::~QGCSend()] on the object at [this]: [delete send_queue].
    Deleting a queue that is not allocated is undefined ([None]). *)
Definition destroy (this : nat) (m : Object.Memory) : option Object.Memory :=
  o ← Object.objects m !! this;
  _ ← Object.queues m !! Object.send_queue o;
  Some {| Object.objects := delete this (Object.objects m);
          Object.queues := delete (Object.send_queue o) (Object.queues m) |}.




(** ** Further statements *)

(** A run of iterations. *)
Definition turns (envs : list Env) : list Event := turn <$> envs.

(** Console packets, and the console packets of the messages [msgs] sent
    one per iteration under the collaborators [envs]. *)
Definition is_console (p : Packet) : bool :=
  if p is statustext _ _ _ _ then true else false.

Definition console_packets (envs : list Env) (msgs : list string) : list Packet :=
  mjoin (zip_with (fun env message => send_console_message env message []) envs msgs).

(** The texts of the refused calls. *)
Definition refusals (calls : list (Packet * option string)) : list string :=
  omap snd calls.





(** The socket refuses every datagram. *)
Definition down_env : Env := with_send_to (fun _ _ => Some "Network is down"%string) busy_env.


Definition is_heartbeat (p : Packet) : bool :=
  if p is heartbeat _ _ _ _ _ _ _ then true else false.

(** The number of driver messages of an iteration. *)
Definition driver_message_count (env : Env) (count : Z) : nat :=
  length (driver ← getDrivers env; driver (uasId env) send_rate count).

(** The reading of the specification: the packets handed to the socket in
    an iteration are in precedence order, with at most one console packet. *)
Definition sends_in_precedence_order (K : Consts) (env : Env) (s : State) : Prop :=
  exists s' calls,
    iteration K env s = Some (s', normal) /\
    socket_log s' = socket_log s ++ calls /\
    StronglySorted by_precedence (attempted calls) /\
    (length (List.filter is_console (attempted calls)) <= 1)%nat.

(** [send] runs, two console messages wait, every request is latched, and
    the socket refuses the first datagram of the first iteration. *)
Definition refused_trace : list Event :=
  [enter_send quiet_env; console_signal "Critical: overheat";
   console_signal "Warning: low battery"; param_list_request;
   param_request (sample_param 20 "ROLL_KD" 12); rc_calibration_request;
   turn down_env].

(** * Properties *)

(** ** RateScheduler *)

Section ShouldRun.

Lemma div_step (d s : Z) :
  0 < d -> s / d - (s - 1) / d = if s mod d =? 0 then 1 else 0.
Proof.
  intros Hd.
  pose proof (Z.div_mod s d ltac:(lia)) as Hs.
  pose proof (Z.mod_pos_bound s d Hd) as Hm.
  destruct (Z.eqb_spec (s mod d) 0) as [H0 | H0].
  - assert ((s - 1) / d = s / d - 1); [| lia].
    symmetry. apply (Z.div_unique_pos _ _ _ (d - 1)); lia.
  - assert ((s - 1) / d = s / d); [| lia].
    symmetry. apply (Z.div_unique_pos _ _ _ (s mod d - 1)); lia.
Qed.

Variables r b : Z.
Hypothesis Hr : 0 < r <= b.

Lemma period_pos : 0 < b / r.
Proof. apply Z.div_str_pos. lia. Qed.

Lemma should_run_active (n : Z) :
  0 <= n -> should_run r b n = Some (n mod (b / r) =? 0).
Proof.
  intros Hn. pose proof period_pos as Hd. unfold should_run.
  replace (r =? 0) with false by lia. replace (r >? b) with false by lia.
  cbn [orb]. unfold CInt.div, CInt.rem, CInt.undefined_division.
  replace (r =? 0) with false by lia. cbn [orb].
  replace (r =? -1) with false by lia. rewrite andb_false_r. cbn.
  rewrite Z.quot_div_nonneg by lia.
  replace (b / r =? 0) with false by lia.
  replace (b / r =? -1) with false by lia. rewrite andb_false_r. cbn.
  by rewrite Z.rem_mod_nonneg by lia.
Qed.

Lemma fires_count (len : nat) : forall s : Z,
  0 <= s ->
  Z.of_nat (fires r b s len) = (s + Z.of_nat len - 1) / (b / r) - (s - 1) / (b / r).
Proof.
  pose proof period_pos as Hd.
  induction len as [| len IH]; intros s Hs.
  - cbn [fires]. replace (s + Z.of_nat 0 - 1) with (s - 1) by lia. lia.
  - cbn [fires]. rewrite Nat2Z.inj_add, IH by lia.
    rewrite should_run_active by lia.
    pose proof (div_step (b / r) s Hd) as Hstep.
    replace (s + 1 + Z.of_nat len - 1) with (s + Z.of_nat (S len) - 1) by lia.
    replace (s + 1 - 1) with s by lia.
    destruct (s mod (b / r) =? 0); cbn; lia.
Qed.

End ShouldRun.

(** C3 (as amended): for every stream rate [r >= 0], base rate [b > 0] and
    iteration [n >= 0], [should_run r b n] is false when [r = 0] or [r > b];
    otherwise it is true iff [n mod (b / r) = 0], so it is true at [n = 0],
    and when [b mod r = 0] it is true exactly at the multiples of [b / r] and
    fires exactly [r] times in the [b] iterations from [n] on. *)
Theorem should_run_schedule (r b n : Z) :
  0 <= r -> 0 < b -> 0 <= n -> schedule_law r b n.
Proof.
  intros Hr Hb Hn. split.
  - intros Hoff. unfold should_run.
    destruct (Z.eqb_spec r 0) as [-> | Hr0]; [done |].
    replace (r >? b) with true by lia. done.
  - intros [Hr0 Hrb]. assert (0 < r <= b) as Hact by lia.
    pose proof (period_pos r b Hact) as Hd.
    split; [by apply should_run_active |].
    split; [rewrite should_run_active by lia; by rewrite Z.mod_0_l by lia |].
    intros Hdiv. split.
    + rewrite should_run_active by lia. split.
      * intros [=Hm%Z.eqb_eq]. exists (n / (b / r)). split.
        -- apply Z.div_pos; lia.
        -- pose proof (Z.div_mod n (b / r) ltac:(lia)). lia.
      * intros (k & Hk & ->). by rewrite Z.mod_mul by lia.
    + rewrite fires_count by lia. rewrite Z2Nat.id by lia.
      assert (b = r * (b / r)) as Hbr.
      { pose proof (Z.div_mod b r ltac:(lia)). lia. }
      replace (n + b - 1) with (n - 1 + r * (b / r)) by lia.
      rewrite Z.div_add by lia. lia.
Qed.

Lemma should_run_schedule_witness :
  0 <= 2 /\ 0 < 200 /\ 0 <= 100 /\ schedule_law 2 200 100.
Proof.
  split; [lia |]. split; [lia |]. split; [lia |].
  apply (should_run_schedule 2 200 100); lia.
Defined.

(** C3, as stated for all integers, fails at a negative rate below [- b]:
    the guard lets it through and the period [b / r] is zero, so the
    remainder is undefined and no value is returned. *)
Lemma should_run_negative_rate : 0 < 200 /\ 0 <= 1 /\ ~ schedule_law (-300) 200 1.
Proof.
  split; [lia |]. split; [lia |].
  intros [_ H]. destruct H as [H _]; [lia |]. discriminate H.
Qed.

(** The scenario of the specification: base rate 200, heartbeat rate 2. *)
Example should_run_heartbeat :
  should_run 2 200 0 = Some true /\
  Forall (fun n => should_run 2 200 (Z.of_nat n) = Some false) (seq 1 99) /\
  should_run 2 200 100 = Some true.
Proof.
  split; [reflexivity |]. split; [| reflexivity].
  apply Forall_forall. intros n Hn%elem_of_seq.
  rewrite should_run_active by lia.
  f_equal. change (200 / 2) with 100. apply Z.eqb_neq.
  rewrite Z.mod_small by lia. lia.
Qed.

(** ** Parameter encoders *)

Lemma to_int_in_range (z : Z) : CInt.in_range z -> CInt.to_int z = z.
Proof.
  unfold CInt.in_range, CInt.INT_MIN, CInt.INT_MAX, CInt.to_int. intros Hz.
  rewrite Z.mod_small; lia.
Qed.

Lemma num_params_from (plist : list (list Param)) : forall acc : Z,
  0 <= acc ->
  acc + Z.of_nat (length (concat plist)) <= CInt.INT_MAX ->
  fold_left (fun n l => CInt.to_int (n + Z.of_nat (length l))) plist acc
  = acc + Z.of_nat (length (concat plist)).
Proof.
  induction plist as [| l plist IH]; intros acc Hacc Hmax;
    cbn [fold_left concat] in *.
  - cbn. lia.
  - rewrite length_app in *. rewrite to_int_in_range.
    + rewrite IH; lia.
    + unfold CInt.in_range, CInt.INT_MIN, CInt.INT_MAX in *. lia.
Qed.

Lemma send_param_inner_spec K uas num (items : list Param) : forall index sendq,
  0 <= index ->
  index + Z.of_nat (length items) <= CInt.INT_MAX ->
  send_param_inner K uas num items index sendq
  = (index + Z.of_nat (length items), sendq ++ dump_packets K uas num index items).
Proof.
  induction items as [| p items IH]; intros index sendq Hi Hmax; cbn [send_param_inner].
  - unfold dump_packets. cbn. rewrite app_nil_r. f_equal. lia.
  - cbn [length] in Hmax. rewrite to_int_in_range.
    + rewrite IH by lia. unfold dump_packets, push. rewrite imap_cons.
      rewrite <- app_assoc. cbn [app length]. f_equal; [lia |].
      f_equal. f_equal; [f_equal; lia |].
      apply imap_ext. intros i q _. cbn. f_equal. lia.
    + unfold CInt.in_range, CInt.INT_MIN, CInt.INT_MAX in *. lia.
Qed.

Lemma dump_packets_app K uas num index (l1 l2 : list Param) :
  dump_packets K uas num index (l1 ++ l2)
  = dump_packets K uas num index l1
    ++ dump_packets K uas num (index + Z.of_nat (length l1)) l2.
Proof.
  unfold dump_packets. rewrite imap_app. f_equal.
  apply imap_ext. intros i q _. cbn. f_equal. lia.
Qed.

Lemma send_param_outer_spec K uas num (plist : list (list Param)) : forall index sendq,
  0 <= index ->
  index + Z.of_nat (length (concat plist)) <= CInt.INT_MAX ->
  send_param_outer K uas num plist index sendq
  = (index + Z.of_nat (length (concat plist)),
     sendq ++ dump_packets K uas num index (concat plist)).
Proof.
  induction plist as [| items plist IH]; intros index sendq Hi Hmax;
    cbn [send_param_outer concat] in *.
  - unfold dump_packets. cbn. rewrite app_nil_r. f_equal. lia.
  - rewrite length_app in *.
    rewrite send_param_inner_spec by lia. rewrite IH by lia.
    rewrite dump_packets_app, app_assoc. f_equal. lia.
Qed.

Lemma send_param_packets K env :
  let all := Control_getParameters env ++ Helicopter_getParameters env in
  Z.of_nat (length all) <= CInt.INT_MAX ->
  send_param K env [] = dump_packets K (uasId env) (Z.of_nat (length all)) 0 all.
Proof.
  intros all Hmax.
  assert (concat (parameter_sources env) = all) as Hall.
  { unfold parameter_sources, all. cbn. by rewrite app_nil_r. }
  unfold send_param, num_params.
  rewrite num_params_from by (rewrite ?Hall; lia).
  rewrite send_param_outer_spec by (rewrite ?Hall; lia).
  cbn [snd]. rewrite Hall. by rewrite Z.add_0_l.
Qed.

(** C5: servicing the full-dump request pushes, behind what is queued, one
    packet per parameter, the parameters of Control before those of
    Helicopter, each packet carrying the total count and its zero-based
    position in that order. *)
Theorem send_param_dump K env sendq :
  let all := Control_getParameters env ++ Helicopter_getParameters env in
  Z.of_nat (length all) <= CInt.INT_MAX ->
  exists new,
    send_param K env sendq = sendq ++ new /\
    length new = length all /\
    forall (i : nat) (p : Param),
      all !! i = Some p ->
      new !! i = Some (param_value (uasId env) (to_uint8 (getCompID p)) (getParamID p)
                         (getValue p) (MAV_VAR_FLOAT K)
                         (Z.of_nat (length all)) (Z.of_nat i)).
Proof.
  intros all Hmax.
  assert (concat (parameter_sources env) = all) as Hall.
  { unfold parameter_sources, all. cbn. by rewrite app_nil_r. }
  exists (dump_packets K (uasId env) (Z.of_nat (length all)) 0 all).
  split; [| split].
  - unfold send_param, num_params.
    rewrite num_params_from by (rewrite ?Hall; lia).
    rewrite send_param_outer_spec by (rewrite ?Hall; lia).
    cbn [snd]. rewrite Hall. by rewrite Z.add_0_l.
  - unfold dump_packets. by rewrite length_imap.
  - intros i p Hp. unfold dump_packets. rewrite list_lookup_imap, Hp. cbn.
    by rewrite Z.add_0_l.
Qed.

(** The scenario of the specification: sources of 3 and 2 parameters give 5
    packets with count 5 and indices 0 to 4, source by source. *)
Lemma send_param_dump_witness :
  Z.of_nat (length (Control_getParameters dump_env ++ Helicopter_getParameters dump_env))
    <= CInt.INT_MAX /\
  exists new,
    send_param K0 dump_env [] = [] ++ new /\
    length new = 5%nat /\
    new = [param_value 100 20 "ROLL_KP" 11 9 5 0; param_value 100 20 "ROLL_KD" 12 9 5 1;
           param_value 100 20 "ROLL_KI" 13 9 5 2; param_value 100 10 "MASS" 21 9 5 3;
           param_value 100 10 "GRAVITY" 22 9 5 4].
Proof.
  assert (Z.of_nat (length (Control_getParameters dump_env
                            ++ Helicopter_getParameters dump_env)) <= CInt.INT_MAX) as H.
  { vm_compute. discriminate. }
  split; [exact H |].
  destruct (send_param_dump K0 dump_env [] H) as (new & Hq & Hlen & Hnth).
  exists new. split; [exact Hq |]. split; [exact Hlen |].
  vm_compute in Hq. symmetry. exact Hq.
Defined.

Lemma send_requested_params_replies K uas (requested : list Param) : forall sendq,
  send_requested_params K uas requested sendq
  = ([], sendq ++ map (reply_packet K uas) requested).
Proof.
  induction requested as [| front requested IH]; intros sendq;
    cbn [send_requested_params map].
  - by rewrite app_nil_r.
  - rewrite IH. unfold push. by rewrite <- app_assoc.
Qed.

(** ** Console encoder *)

Lemma resize_length (n : nat) : forall s, String.length (resize n s) = n.
Proof.
  induction n as [| n IH]; intros s; [done |].
  destruct s; cbn; by rewrite IH.
Qed.

Lemma resize_get (n : nat) : forall s i,
  (i < n)%nat ->
  String.get i (resize n s)
  = if (i <? String.length s)%nat then String.get i s else Some Ascii.zero.
Proof.
  induction n as [| n IH]; intros s i Hi; [lia |].
  destruct s as [| c s]; cbn [resize String.get String.length].
  - destruct i as [| i]; [done |]. rewrite IH by lia. done.
  - destruct i as [| i]; [done |]. rewrite IH by lia. done.
Qed.

Lemma prefix_resize (test : string) : forall n input,
  (String.length test <= n)%nat ->
  has_nul test = false ->
  String.prefix test (resize n input) = String.prefix test input.
Proof.
  induction test as [| a test IH]; intros n input Hlen Hnul.
  - by destruct n, input.
  - cbn [String.length] in Hlen. destruct n as [| n]; [lia |].
    cbn [has_nul] in Hnul. destruct (ascii_dec a Ascii.zero) as [| Ha]; [done |].
    destruct input as [| c input]; cbn [resize String.prefix].
    + by destruct (ascii_dec a Ascii.zero).
    + destruct (ascii_dec a c); [| done]. apply IH; [lia | done].
Qed.

(** C7: the console encoder pushes one status text whose text is the
    message cut or NUL-filled to 50 characters and whose severity is 255
    when the message starts with "Critical" (case matters) and 0 otherwise;
    two messages pushed in a row leave one per iteration, in push order. *)
Theorem send_console_message_encoding :
  (forall env message sendq,
     exists text,
       send_console_message env message sendq
       = sendq ++ [statustext (uasId env) 0
                     (if String.prefix "Critical" message then 255 else 0) text] /\
       String.length text = 50%nat /\
       forall i, (i < 50)%nat ->
         String.get i text
         = if (i <? String.length message)%nat then String.get i message
           else Some Ascii.zero) /\
  sent_after K0 (console_pushes ++ [turn quiet_env])
  = Some [statustext 100 0 255 (resize 50 "Critical: overheat")] /\
  sent_after K0 (console_pushes ++ [turn quiet_env; turn quiet_env])
  = Some [statustext 100 0 255 (resize 50 "Critical: overheat");
          statustext 100 0 0 (resize 50 "Warning: low battery")].
Proof.
  split; [| split; reflexivity].
  intros env message sendq. exists (resize 50 message).
  split; [| split].
  - unfold send_console_message, push, starts_with.
    by rewrite prefix_resize by (cbn; done || lia).
  - apply resize_length.
  - intros i Hi. by apply resize_get.
Qed.

(** The prefix test is case sensitive and looks at the start only. *)
Example console_severity_case :
  send_console_message quiet_env "critical: overheat" []
  = [statustext 100 0 0 (resize 50 "critical: overheat")] /\
  send_console_message quiet_env "Not Critical" []
  = [statustext 100 0 0 (resize 50 "Not Critical")].
Proof. split; reflexivity. Qed.

(** ** Queue assembly *)

Lemma should_run_due (rate count : Z) :
  0 <= rate -> should_run rate send_rate count = Some (due rate count).
Proof.
  intros Hrate.
  assert (exists b, should_run rate send_rate count = Some b) as [b Hb].
  { unfold should_run, send_rate.
    destruct (Z.eqb_spec rate 0) as [| H0]; [by eexists |].
    destruct (Z.gtb_spec rate 200) as [| H200]; [by eexists |].
    cbn [orb]. unfold CInt.div, CInt.rem, CInt.undefined_division.
    replace (rate =? 0) with false by lia.
    replace (rate =? -1) with false by lia.
    rewrite andb_false_r. cbn [orb mbind option_bind].
    assert (0 < Z.quot 200 rate).
    { rewrite Z.quot_div_nonneg by lia. apply Z.div_str_pos. lia. }
    replace (Z.quot 200 rate =? 0) with false by lia.
    replace (Z.quot 200 rate =? -1) with false by lia.
    rewrite andb_false_r. cbn [orb mbind option_bind]. by eexists. }
  unfold due. rewrite Hb. by destruct b.
Qed.

Lemma send_param_inner_app K uas num (items : list Param) : forall index sendq,
  send_param_inner K uas num items index sendq
  = ((send_param_inner K uas num items index []).1,
     sendq ++ (send_param_inner K uas num items index []).2).
Proof.
  induction items as [| p items IH]; intros index sendq; cbn [send_param_inner].
  - cbn. by rewrite app_nil_r.
  - rewrite IH. rewrite (IH _ (push _ [])). cbn [fst snd]. unfold push.
    by rewrite <- app_assoc.
Qed.

Lemma send_param_outer_app K uas num (plist : list (list Param)) : forall index sendq,
  send_param_outer K uas num plist index sendq
  = ((send_param_outer K uas num plist index []).1,
     sendq ++ (send_param_outer K uas num plist index []).2).
Proof.
  induction plist as [| items plist IH]; intros index sendq; cbn [send_param_outer].
  - cbn. by rewrite app_nil_r.
  - rewrite (send_param_inner_app _ _ _ _ _ sendq).
    rewrite (surjective_pairing (send_param_inner K uas num items index [])).
    cbn [fst snd]. rewrite IH.
    rewrite (IH _ (send_param_inner K uas num items index []).2).
    cbn [fst snd]. by rewrite <- app_assoc.
Qed.

Lemma send_param_app K env sendq : send_param K env sendq = sendq ++ send_param K env [].
Proof. unfold send_param. by rewrite send_param_outer_app. Qed.

Lemma push_driver_messages_app (msgs : list (list Z)) : forall sendq,
  push_driver_messages msgs sendq = sendq ++ (driver_message <$> msgs).
Proof.
  unfold push_driver_messages.
  induction msgs as [| msg msgs IH]; intros sendq; cbn [fold_left fmap list_fmap].
  - by rewrite app_nil_r.
  - rewrite IH. unfold push. by rewrite <- app_assoc.
Qed.

Lemma send_driver_messages_app env count sendq :
  send_driver_messages env count sendq
  = sendq ++ (driver ← getDrivers env; driver_message <$> driver (uasId env) send_rate count).
Proof.
  unfold send_driver_messages. revert sendq.
  induction (getDrivers env) as [| driver drivers IH]; intros sendq; cbn [fold_left].
  - cbn. by rewrite app_nil_r.
  - rewrite IH, push_driver_messages_app. cbn. by rewrite <- app_assoc.
Qed.

Lemma guarded_app (b : bool) (f : list Packet -> list Packet) (sendq : list Packet) :
  (forall q, f q = q ++ f []) ->
  (if b then f sendq else sendq) = sendq ++ (if b then f [] else []).
Proof. intros Hf. destruct b; [apply Hf | by rewrite app_nil_r]. Qed.

Lemma send_status_app K env this sendq :
  send_status K env this (send_heartbeat K sendq)
  = sendq ++ send_status K env this (send_heartbeat K []).
Proof. unfold send_status, send_heartbeat, push. by rewrite <- app_assoc. Qed.

Lemma send_rc_channels_app env sendq :
  send_rc_channels env sendq = sendq ++ send_rc_channels env [].
Proof. unfold send_rc_channels, push. by rewrite <- app_assoc. Qed.

(** The queue the loop body assembles: what was queued, then the
    contribution of each stream in the order of the source; the latches and
    the request queue are cleared and one console message is taken. *)
Lemma enqueue_spec K env s :
  scheduled env -> enqueue K env s = Some (assembled K env s).
Proof.
  intros (Hhb & Hrc & Hce). unfold enqueue, assembled.
  rewrite (should_run_due _ _ Hhb), (should_run_due _ _ Hrc), (should_run_due _ _ Hce).
  cbn [mbind option_bind].
  rewrite (guarded_app (due (get_heartbeat_rate env) (loop_count s))
             (fun q => send_status K env (modes s) (send_heartbeat K q)))
    by apply send_status_app.
  rewrite (guarded_app (param_recv (qgc s)) (send_param K env)) by apply send_param_app.
  rewrite (guarded_app (due (get_rc_channel_rate env) (loop_count s)) (send_rc_channels env))
    by apply send_rc_channels_app.
  rewrite (guarded_app (due (get_control_output_rate env) (loop_count s))
             (send_control_effort K env)) by done.
  fold (status_part K env s) (dump_part K env s) (rc_part env s) (effort_part K env s).
  set (q4 := ((((send_queue s ++ _) ++ _) ++ _) ++ _)).
  assert (match requested_params (qgc s) with
          | [] => ([], q4)
          | _ :: _ => send_requested_params K (uasId env) (requested_params (qgc s)) q4
          end = ([], q4 ++ reply_part K env s)) as ->.
  { unfold reply_part. destruct (requested_params (qgc s)) eqn:Hreq.
    - cbn. by rewrite app_nil_r.
    - apply send_requested_params_replies. }
  rewrite (guarded_app (requested_rc_calibration (qgc s)) (send_rc_calibration K env))
    by done.
  fold (calibration_part K env s).
  rewrite send_driver_messages_app. fold (driver_part env s).
  subst q4. unfold enqueued, idle_link.
  destruct (message_queue s) as [| message mq] eqn:Hmq; cbn [tail].
  - f_equal. f_equal. unfold console_part. rewrite Hmq.
    rewrite <- !app_assoc. by rewrite app_nil_r.
  - f_equal. f_equal. unfold console_part. rewrite Hmq.
    unfold send_console_message, push. rewrite <- !app_assoc. done.
Qed.

(** ** Flush *)

Lemma delivered_accepted (l : list Packet) : delivered (accepted l) = l.
Proof.
  unfold delivered, accepted.
  induction l as [| p l IH]; [done |]. cbn. by f_equal.
Qed.

Lemma attempted_accepted (l : list Packet) : attempted (accepted l) = l.
Proof.
  unfold attempted, accepted.
  induction l as [| p l IH]; [done |]. cbn. by f_equal.
Qed.

Lemma flush_loop_ok send_to (sendq : list Packet) : forall n,
  (forall i p, sendq !! i = Some p -> send_to (n + i)%nat p = None) ->
  flush_loop send_to n sendq = (accepted sendq, [], normal).
Proof.
  induction sendq as [| front sendq IH]; intros n Hok; cbn [flush_loop]; [done |].
  rewrite <- (Nat.add_0_r n) at 1. rewrite (Hok 0%nat front) by done.
  rewrite IH; [done |].
  intros i p Hp. rewrite Nat.add_succ_comm. by apply Hok.
Qed.

Lemma flush_loop_fault send_to (sendq : list Packet) : forall n k p what,
  sendq !! k = Some p ->
  send_to (n + k)%nat p = Some what ->
  (forall i p', (i < k)%nat -> sendq !! i = Some p' -> send_to (n + i)%nat p' = None) ->
  flush_loop send_to n sendq
  = (accepted (take k sendq) ++ [(p, Some what)], drop k sendq, throws what).
Proof.
  induction sendq as [| front sendq IH]; intros n k p what Hk Hfail Hbefore; [done |].
  cbn [flush_loop]. destruct k as [| k].
  - injection Hk as ->. rewrite Nat.add_0_r in Hfail. by rewrite Hfail.
  - rewrite <- (Nat.add_0_r n) at 1. rewrite (Hbefore 0%nat front) by (done || lia).
    rewrite (IH (S n) k p what); [done | done | by rewrite Nat.add_succ_comm |].
    intros i p' Hi Hp'. rewrite Nat.add_succ_comm. apply Hbefore; [lia | done].
Qed.

(** Every flush either hands the whole queue over, or stops at the first
    packet the socket refuses. *)
Lemma flush_loop_cases send_to (sendq : list Packet) : forall n,
  flush_loop send_to n sendq = (accepted sendq, [], normal) \/
  exists k p what,
    sendq !! k = Some p /\
    flush_loop send_to n sendq
    = (accepted (take k sendq) ++ [(p, Some what)], drop k sendq, throws what).
Proof.
  induction sendq as [| front sendq IH]; intros n; [by left |].
  cbn [flush_loop]. destruct (send_to n front) as [what |] eqn:Hfront.
  - right. by exists 0%nat, front, what.
  - destruct (IH (S n)) as [-> | (k & p & what & Hk & ->)]; [by left |].
    right. by exists (S k), p, what.
Qed.

(** A flush takes the packets from the front: what the socket accepted,
    followed by what stays queued, is the queue. *)
Lemma flush_fifo env s :
  exists calls,
    socket_log (flush env s).1 = socket_log s ++ calls /\
    delivered calls ++ send_queue (flush env s).1 = send_queue s /\
    attempted calls `prefix_of` send_queue s.
Proof.
  unfold flush.
  destruct (flush_loop_cases (send_to env) (send_queue s) 0)
    as [-> | (k & p & what & Hk & ->)]; cbn [fst snd send_queue socket_log].
  - exists (accepted (send_queue s)). split; [done |].
    rewrite delivered_accepted, attempted_accepted, app_nil_r. done.
  - eexists. split; [done |]. unfold delivered, attempted.
    rewrite omap_app, fmap_app. fold (delivered (accepted (take k (send_queue s)))).
    fold (attempted (accepted (take k (send_queue s)))).
    rewrite delivered_accepted, attempted_accepted. cbn. rewrite app_nil_r.
    split; [apply take_drop |].
    rewrite <- (take_S_r _ _ _ Hk). apply prefix_take.
Qed.

Lemma refusals_accepted (l : list Packet) : refusals (accepted l) = [].
Proof.
  unfold refusals, accepted. induction l as [| p l IH]; [done |]. by cbn.
Qed.

(** Either the socket accepts the whole queue, or there is a first packet
    it refuses. *)
Lemma first_refusal (send_to : nat -> Packet -> option string) (sendq : list Packet) :
  forall n : nat,
  (forall i p, sendq !! i = Some p -> send_to (n + i)%nat p = None) \/
  exists (k : nat) p what,
    sendq !! k = Some p /\
    send_to (n + k)%nat p = Some what /\
    forall i p', (i < k)%nat -> sendq !! i = Some p' -> send_to (n + i)%nat p' = None.
Proof.
  induction sendq as [| front sendq IH]; intros n; [by left |].
  destruct (send_to n front) as [what |] eqn:Hfront.
  - right. exists 0%nat, front, what. split; [done |].
    split; [by rewrite Nat.add_0_r |]. intros i p' Hi. lia.
  - destruct (IH (S n)) as [Hok | (k & p & what & Hk & Hfail & Hbefore)].
    + left. intros [| i] p Hp.
      * injection Hp as <-. by rewrite Nat.add_0_r.
      * rewrite <- Nat.add_succ_comm. by apply Hok.
    + right. exists (S k), p, what. split; [done |].
      split; [by rewrite <- Nat.add_succ_comm |].
      intros [| i] p' Hi Hp'.
      * injection Hp' as <-. by rewrite Nat.add_0_r.
      * rewrite <- Nat.add_succ_comm. apply Hbefore; [lia | done].
Qed.

(** What a flush does, exactly: it hands the queue to the socket from the
    front until the queue is empty or a datagram is refused. *)
Lemma flush_exact env s :
  ((forall i p, send_queue s !! i = Some p -> send_to env i p = None) /\
   flush env s
   = ({| running := running s; modes := modes s; send_queue := [];
         message_queue := message_queue s; qgc := qgc s; loop_count := loop_count s;
         socket_log := socket_log s ++ accepted (send_queue s);
         warnings := warnings s |}, normal)) \/
  (exists (k : nat) p what,
     send_queue s !! k = Some p /\
     send_to env k p = Some what /\
     (forall i p', (i < k)%nat -> send_queue s !! i = Some p' -> send_to env i p' = None) /\
     flush env s
     = ({| running := running s; modes := modes s; send_queue := drop k (send_queue s);
           message_queue := message_queue s; qgc := qgc s; loop_count := loop_count s;
           socket_log := socket_log s ++ accepted (take k (send_queue s)) ++ [(p, Some what)];
           warnings := warnings s ++ [what] |}, normal)).
Proof.
  destruct (first_refusal (send_to env) (send_queue s) 0)
    as [Hok | (k & p & what & Hk & Hfail & Hbefore)].
  - left. split; [done |]. unfold flush. by rewrite flush_loop_ok.
  - right. exists k, p, what. split; [done |]. split; [done |]. split; [done |].
    unfold flush. by rewrite (flush_loop_fault _ _ 0 k p what).
Qed.

(** C1 (as amended): when the socket refuses the packet at position [k] of
    the queue, having accepted those before it, the flush stops there: the
    packets before [k] have been sent and dequeued, the refused packet and
    those behind it stay queued in order and are not handed to the socket in
    that iteration, the fault is reported as a warning and the flush
    completes normally. *)
Theorem flush_stops_at_fault env s (k : nat) (p : Packet) (what : string) :
  send_queue s !! k = Some p ->
  send_to env k p = Some what ->
  (forall i p', (i < k)%nat -> send_queue s !! i = Some p' -> send_to env i p' = None) ->
  let s' := (flush env s).1 in
  (flush env s).2 = normal /\
  socket_log s' = socket_log s ++ accepted (take k (send_queue s)) ++ [(p, Some what)] /\
  delivered (accepted (take k (send_queue s)) ++ [(p, Some what)]) = take k (send_queue s) /\
  attempted (accepted (take k (send_queue s)) ++ [(p, Some what)])
  = take k (send_queue s) ++ [p] /\
  send_queue s' = p :: drop (S k) (send_queue s) /\
  warnings s' = warnings s ++ [what].
Proof.
  intros Hk Hfail Hbefore s'. subst s'. unfold flush.
  rewrite (flush_loop_fault (send_to env) (send_queue s) 0 k p what Hk Hfail Hbefore).
  cbn [fst snd send_queue socket_log warnings].
  split; [done |]. split; [done |].
  unfold delivered, attempted. rewrite omap_app, fmap_app.
  fold (delivered (accepted (take k (send_queue s)))).
  fold (attempted (accepted (take k (send_queue s)))).
  rewrite delivered_accepted, attempted_accepted. cbn. rewrite app_nil_r.
  split; [done |]. split; [done |]. split; [| done].
  by apply drop_S.
Qed.

Lemma flush_stops_at_fault_witness :
  send_queue three_queued !! 1%nat = Some (driver_message [2]) /\
  send_to faulty_env 1 (driver_message [2]) = Some "Network is unreachable"%string /\
  (flush faulty_env three_queued).2 = normal /\
  send_queue (flush faulty_env three_queued).1 = [driver_message [2]; driver_message [3]] /\
  socket_log (flush faulty_env three_queued).1
  = [(driver_message [1], None); (driver_message [2], Some "Network is unreachable"%string)].
Proof.
  split; [reflexivity |]. split; [reflexivity |].
  assert (forall i p', (i < 1)%nat -> send_queue three_queued !! i = Some p' ->
                       send_to faulty_env i p' = None) as Hbefore.
  { intros i p' Hi _. destruct i as [| i]; [reflexivity | lia]. }
  destruct (flush_stops_at_fault faulty_env three_queued 1 (driver_message [2])
              "Network is unreachable" eq_refl eq_refl Hbefore)
    as (Hc & Hlog & _ & _ & Hq & _).
  split; [exact Hc |]. split; [exact Hq | exact Hlog].
Defined.

(** C1 as stated fails: with three packets queued and the second one
    refused, the second and third stay queued and the third is not handed to
    the socket. *)
Lemma flush_does_not_continue :
  send_queue (flush faulty_env three_queued).1 = [driver_message [2]; driver_message [3]] /\
  attempted (socket_log (flush faulty_env three_queued).1)
  = [driver_message [1]; driver_message [2]] /\
  ~ drops_failed_and_continues faulty_env three_queued.
Proof.
  split; [reflexivity |]. split; [reflexivity |].
  intros (calls & _ & _ & Hq & _). discriminate Hq.
Qed.

(** ** Precedence order *)

Lemma sorted_from_nil k : sorted_from k [].
Proof. split; constructor. Qed.

Lemma segment_sorted (k k' : Stream) (l rest : list Packet) :
  (precedence k <= precedence k')%nat ->
  Forall (fun p => stream_of p = k) l ->
  sorted_from k' rest ->
  sorted_from k (l ++ rest).
Proof.
  intros Hk Hl [Hsorted Hrest]. rewrite Forall_forall in Hl, Hrest. split.
  - apply StronglySorted_app_2; [| | done].
    + intros p1 p2 H1 H2. unfold by_precedence.
      rewrite (Hl _ H1). specialize (Hrest _ H2). lia.
    + induction l as [| p l IH]; constructor.
      * apply IH. intros q Hq. apply Hl. by right.
      * apply Forall_forall. intros q Hq. unfold by_precedence.
        rewrite (Hl p), (Hl q); [done | by right | by left].
  - apply Forall_forall. intros p [Hp | Hp]%elem_of_app.
    + by rewrite (Hl _ Hp).
    + specialize (Hrest _ Hp). lia.
Qed.

Lemma dump_packets_stream K uas num index (all : list Param) :
  0 <= index -> Forall (fun p => stream_of p = dump_stream) (dump_packets K uas num index all).
Proof.
  intros Hi. apply Forall_forall. intros p Hp. unfold dump_packets in Hp.
  apply elem_of_lookup_imap in Hp as (i & q & -> & _). cbn.
  destruct (Z.eqb_spec (index + Z.of_nat i) (-1)); [lia | done].
Qed.

Section Parts.

Variables (K : Consts) (env : Env) (s : State).

Lemma status_part_stream : Forall (fun p => stream_of p = status_stream) (status_part K env s).
Proof. unfold status_part. destruct (due _ _); repeat constructor. Qed.

Lemma dump_part_stream :
  Z.of_nat (length (Control_getParameters env ++ Helicopter_getParameters env))
    <= CInt.INT_MAX ->
  Forall (fun p => stream_of p = dump_stream) (dump_part K env s).
Proof.
  intros Hmax. unfold dump_part. destruct (param_recv _); [| constructor].
  rewrite send_param_packets by done. by apply dump_packets_stream.
Qed.

Lemma rc_part_stream : Forall (fun p => stream_of p = rc_stream) (rc_part env s).
Proof. unfold rc_part. destruct (due _ _); repeat constructor. Qed.

Lemma effort_part_stream : Forall (fun p => stream_of p = effort_stream) (effort_part K env s).
Proof. unfold effort_part. destruct (due _ _); repeat constructor. Qed.

Lemma reply_part_stream : Forall (fun p => stream_of p = reply_stream) (reply_part K env s).
Proof. unfold reply_part. apply Forall_fmap, Forall_true. done. Qed.

Lemma calibration_part_stream :
  Forall (fun p => stream_of p = calibration_stream) (calibration_part K env s).
Proof. unfold calibration_part. destruct (requested_rc_calibration _); repeat constructor. Qed.

Lemma driver_part_stream : Forall (fun p => stream_of p = driver_stream) (driver_part env s).
Proof.
  unfold driver_part. apply Forall_forall.
  intros p (driver & (msg & -> & _)%list_elem_of_fmap & _)%list_elem_of_bind. done.
Qed.

Lemma console_part_stream : Forall (fun p => stream_of p = console_stream) (console_part env s).
Proof. unfold console_part. destruct (message_queue s); repeat constructor. Qed.

Lemma console_part_length : (length (console_part env s) <= 1)%nat.
Proof. unfold console_part. destruct (message_queue s); cbn; lia. Qed.

Lemma enqueued_sorted :
  Z.of_nat (length (Control_getParameters env ++ Helicopter_getParameters env))
    <= CInt.INT_MAX ->
  StronglySorted by_precedence (enqueued K env s).
Proof.
  intros Hmax. unfold enqueued.
  apply (segment_sorted status_stream dump_stream); [cbn; lia | apply status_part_stream |].
  apply (segment_sorted dump_stream rc_stream); [cbn; lia | by apply dump_part_stream |].
  apply (segment_sorted rc_stream effort_stream); [cbn; lia | apply rc_part_stream |].
  apply (segment_sorted effort_stream reply_stream); [cbn; lia | apply effort_part_stream |].
  apply (segment_sorted reply_stream calibration_stream);
    [cbn; lia | apply reply_part_stream |].
  apply (segment_sorted calibration_stream driver_stream);
    [cbn; lia | apply calibration_part_stream |].
  apply (segment_sorted driver_stream console_stream);
    [cbn; lia | apply driver_part_stream |].
  rewrite <- (app_nil_r (console_part env s)).
  apply (segment_sorted console_stream console_stream);
    [done | apply console_part_stream | apply sorted_from_nil].
Qed.

End Parts.

(** ** Runs without transport faults *)

Lemma flush_healthy env s :
  (forall n p, send_to env n p = None) ->
  flush env s
  = ({| running := running s; modes := modes s; send_queue := [];
        message_queue := message_queue s; qgc := qgc s; loop_count := loop_count s;
        socket_log := socket_log s ++ accepted (send_queue s);
        warnings := warnings s |}, normal).
Proof.
  intros Hok. unfold flush. by rewrite flush_loop_ok by (intros; apply Hok).
Qed.

Lemma iteration_healthy K env s :
  healthy env ->
  iteration K env s
  = Some ({| running := running s; modes := modes s; send_queue := [];
             message_queue := tail (message_queue s); qgc := idle_link;
             loop_count := CInt.to_int (loop_count s + 1);
             socket_log := socket_log s ++ accepted (send_queue s ++ enqueued K env s);
             warnings := warnings s |}, normal).
Proof.
  intros [Hrates Hok]. unfold iteration.
  rewrite enqueue_spec by done. cbn [mbind option_bind].
  by rewrite flush_healthy by done.
Qed.

Lemma step_keeps_queue_empty K (e : Event) (s : State) :
  fault_free e -> send_queue s = [] ->
  exists s', step K e s = Some s' /\ send_queue s' = [].
Proof.
  intros He Hq.
  destruct e; cbn [step fault_free] in *; unfold deliver;
    try (destruct (running s); by eexists).
  destruct (running s); [| by eexists].
  rewrite iteration_healthy by done. by eexists.
Qed.

Lemma run_keeps_queue_empty K (trace : list Event) : forall s,
  Forall fault_free trace -> send_queue s = [] ->
  exists s', run K trace s = Some s' /\ send_queue s' = [].
Proof.
  induction trace as [| e trace IH]; intros s Htrace Hq; cbn [run]; [by eexists |].
  apply Forall_cons in Htrace as [He Htrace].
  destruct (step_keeps_queue_empty K e s He Hq) as (s1 & -> & Hq1).
  cbn [mbind option_bind]. by apply IH.
Qed.

(** C10: an iteration whose flush meets no transport fault leaves the send
    queue empty, whatever was queued when it started, and the queue is empty
    after an iteration only then; so in a run whose iterations meet no fault
    every iteration starts with an empty send queue, hands to the socket
    exactly the packets it queued, and leaves the queue empty.  After an
    iteration whose flush is stopped by a fault at position [k], the packets
    from [k] on are still queued and come before the packets of the next
    iteration. *)
Theorem fault_free_queue_empty K :
  (forall env s,
     scheduled env ->
     exists s' calls,
       iteration K env s = Some (s', normal) /\
       socket_log s' = socket_log s ++ calls /\
       (refusals calls = [] <-> send_queue s' = []) /\
       (refusals calls = [] ->
        delivered calls = send_queue s ++ enqueued K env s /\
        warnings s' = warnings s) /\
       ((forall i p, (send_queue s ++ enqueued K env s) !! i = Some p ->
                     send_to env i p = None) ->
        refusals calls = [])) /\
  (forall link trace env,
     Forall fault_free trace -> healthy env ->
     exists s s',
       run K trace (constructed link) = Some s /\
       send_queue s = [] /\
       iteration K env s = Some (s', normal) /\
       socket_log s' = socket_log s ++ accepted (enqueued K env s) /\
       send_queue s' = []) /\
  (forall env s (k : nat) p what,
     scheduled env ->
     (send_queue s ++ enqueued K env s) !! k = Some p ->
     send_to env k p = Some what ->
     (forall i p', (i < k)%nat -> (send_queue s ++ enqueued K env s) !! i = Some p' ->
                   send_to env i p' = None) ->
     exists s',
       iteration K env s = Some (s', normal) /\
       send_queue s' = drop k (send_queue s ++ enqueued K env s) /\
       forall env', scheduled env' ->
         exists s'',
           enqueue K env' s' = Some s'' /\
           send_queue s''
           = drop k (send_queue s ++ enqueued K env s) ++ enqueued K env' s').
Proof.
  split; [| split].
  - intros env s Hrates. unfold iteration. rewrite enqueue_spec by done.
    cbn [mbind option_bind].
    destruct (flush_exact env (assembled K env s))
      as [[Hok ->] | (k & p & what & Hk & Hfail & Hbefore & ->)];
      cbn [send_queue assembled socket_log warnings] in *.
    + eexists _, (accepted (send_queue s ++ enqueued K env s)).
      split; [done |]. cbn [socket_log send_queue warnings].
      rewrite refusals_accepted, delivered_accepted. done.
    + eexists _, (accepted (take k (send_queue s ++ enqueued K env s)) ++ [(p, Some what)]).
      split; [done |]. cbn [socket_log send_queue warnings].
      assert (refusals (accepted (take k (send_queue s ++ enqueued K env s))
                        ++ [(p, Some what)]) = [what]) as ->.
      { unfold refusals. rewrite omap_app.
        fold (refusals (accepted (take k (send_queue s ++ enqueued K env s)))).
        by rewrite refusals_accepted. }
      split; [done |]. split; [| split; [done |]].
      * split; [done |]. intros Hq. apply (f_equal length) in Hq.
        rewrite length_drop in Hq. apply lookup_lt_Some in Hk. cbn in Hq. lia.
      * intros Hok. rewrite (Hok k p Hk) in Hfail. done.
  - intros link trace env Htrace Henv.
    destruct (run_keeps_queue_empty K trace (constructed link) Htrace eq_refl)
      as (s & Hrun & Hq).
    eexists s, _. split; [done |]. split; [done |].
    split; [by apply iteration_healthy |].
    cbn [socket_log send_queue]. by rewrite Hq.
  - intros env s k p what Hrates Hk Hfail Hbefore.
    unfold iteration. rewrite enqueue_spec by done. cbn [mbind option_bind].
    unfold flush.
    rewrite (flush_loop_fault (send_to env) (send_queue (assembled K env s)) 0 k p what)
      by done.
    eexists. split; [done |]. cbn [send_queue assembled]. split; [done |].
    intros env' Hrates'. eexists. split; [by apply enqueue_spec |]. done.
Qed.

Lemma fault_free_queue_empty_witness :
  Forall fault_free busy_trace /\ healthy busy_env /\
  (exists s s',
     run K0 busy_trace (constructed idle_link) = Some s /\
     send_queue s = [] /\
     iteration K0 busy_env s = Some (s', normal) /\
     socket_log s' = socket_log s ++ accepted (enqueued K0 busy_env s) /\
     send_queue s' = []) /\
  (exists s1 s2 calls,
     run K0 refused_trace (constructed idle_link) = Some s1 /\
     length (send_queue s1) = 12%nat /\
     iteration K0 busy_env s1 = Some (s2, normal) /\
     socket_log s2 = socket_log s1 ++ calls /\
     length (delivered calls) = 16%nat /\
     send_queue s2 = []).
Proof.
  assert (scheduled busy_env) as Hrates by (repeat split; cbn; lia).
  assert (healthy busy_env) as Henv by (split; [exact Hrates | done]).
  assert (Forall fault_free busy_trace) as Htrace.
  { unfold busy_trace.
    repeat (apply Forall_cons_2; [first [exact I | exact Henv] |]).
    apply Forall_nil_2. }
  split; [exact Htrace |]. split; [exact Henv |]. split.
  - exact (proj1 (proj2 (fault_free_queue_empty K0)) idle_link busy_trace busy_env
             Htrace Henv).
  - destruct (run K0 refused_trace (constructed idle_link)) as [s1 |] eqn:Hs1;
      [| discriminate Hs1].
    destruct (proj1 (fault_free_queue_empty K0) busy_env s1 Hrates)
      as (s2 & calls & Hs2 & Hlog & Hiff & Hclean & Hok).
    assert (refusals calls = []) as Hnone by (apply Hok; done).
    exists s1, s2, calls. split; [done |].
    vm_compute in Hs1. injection Hs1 as <-.
    split; [reflexivity |]. split; [exact Hs2 |]. split; [exact Hlog |].
    split; [| by apply Hiff].
    rewrite (proj1 (Hclean Hnone)). reflexivity.
Defined.

(** ** ModeStateCache *)

Lemma iteration_scheduled K env s :
  scheduled env ->
  exists s',
    iteration K env s = Some (s', normal) /\
    modes s' = modes s /\ running s' = running s.
Proof.
  intros Hrates. unfold iteration. rewrite enqueue_spec by done.
  cbn [mbind option_bind]. unfold flush.
  destruct (flush_loop _ _ _) as [[calls rest] c]. by eexists.
Qed.

Lemma run_app K (t1 t2 : list Event) : forall s,
  run K (t1 ++ t2) s = s1 ← run K t1 s; run K t2 s1.
Proof.
  induction t1 as [| e t1 IH]; intros s; cbn [run app]; [done |].
  destruct (step K e s) as [s1 |]; cbn [mbind option_bind]; [apply IH | done].
Qed.

(** A property of the state that every event of an admitted kind keeps is
    kept by every trace of such events. *)
Lemma run_preserves K (P : State -> Prop) (kind : Event -> bool) :
  (forall e s, runnable e -> kind e = false -> P s ->
               exists s', step K e s = Some s' /\ P s') ->
  forall trace s, Forall runnable trace -> without kind trace -> P s ->
                  exists s', run K trace s = Some s' /\ P s'.
Proof.
  intros Hstep. induction trace as [| e trace IH]; intros s Hrun Hkind HP; cbn [run].
  - by eexists.
  - apply Forall_cons in Hrun as [He Hrun]. apply Forall_cons in Hkind as [Hk Hkind].
    destruct (Hstep e s He Hk HP) as (s1 & -> & HP1).
    cbn [mbind option_bind]. by apply IH.
Qed.

(** One step, event by event. *)
Ltac step_cases K e s He :=
  destruct e as [env | env | | | | | | | | |]; cbn [step runnable] in *; unfold deliver;
  destruct (running s) eqn:?; try discriminate;
  try match goal with
      | |- context [iteration K ?env s] =>
          destruct (iteration_scheduled K env s He) as (? & -> & ? & ?)
      end;
  eexists; (split; [reflexivity |]);
  cbn [fst modes running set_modes set_message_queue set_qgc start
       servo_source pilot_mode filter_state control_mode attitude_source
       set_servo_source set_pilot_mode set_filter_state set_control_mode
       set_attitude_source fmap option_fmap option_map] in *.

Lemma step_servo_source K e s :
  runnable e -> notifies_servo_source e = false ->
  servo_source (modes s) = NUM_AUTOPILOT_MODES ->
  exists s', step K e s = Some s' /\ servo_source (modes s') = NUM_AUTOPILOT_MODES.
Proof. intros He Hk HP. step_cases K e s He; congruence. Qed.

Lemma step_filter_state K e s :
  runnable e -> notifies_filter_state e = false ->
  filter_state (modes s) = NUM_GX3_MODES ->
  exists s', step K e s = Some s' /\ filter_state (modes s') = NUM_GX3_MODES.
Proof. intros He Hk HP. step_cases K e s He; congruence. Qed.

Lemma step_attitude_source K e s :
  runnable e -> notifies_attitude_source e = false ->
  attitude_source (modes s) = true ->
  exists s', step K e s = Some s' /\ attitude_source (modes s') = true.
Proof. intros He Hk HP. step_cases K e s He; congruence. Qed.

Lemma step_not_started K e s :
  runnable e -> enters_send e = false ->
  running s = false /\ modes s = initial_modes ->
  exists s', step K e s = Some s' /\ running s' = false /\ modes s' = initial_modes.
Proof. intros He Hk [Hr Hm]. step_cases K e s He; (split; congruence). Qed.

Lemma step_pilot_mode K v e s :
  runnable e -> notifies_pilot_mode e = false ->
  running s = true /\ pilot_mode (modes s) = v ->
  exists s', step K e s = Some s' /\ running s' = true /\ pilot_mode (modes s') = v.
Proof. intros He Hk [Hr Hm]. step_cases K e s He; (split; congruence). Qed.

Lemma step_control_mode K v e s :
  runnable e -> notifies_control_mode e = false ->
  running s = true /\ control_mode (modes s) = v ->
  exists s', step K e s = Some s' /\ running s' = true /\ control_mode (modes s') = v.
Proof. intros He Hk [Hr Hm]. step_cases K e s He; (split; congruence). Qed.

Lemma step_total K e s :
  runnable e -> exists s', step K e s = Some s' /\ True.
Proof. intros He. step_cases K e s He; done. Qed.

Lemma run_total K (trace : list Event) (s : State) :
  Forall runnable trace -> exists s', run K trace s = Some s'.
Proof.
  intros Hrun.
  destruct (run_preserves K (fun _ => True) (fun _ => false)) with (trace := trace) (s := s)
    as (s' & Hs' & _); [| done | by apply Forall_true | done | by eexists].
  intros e s0 He _ _. by apply step_total.
Qed.

(** C8 (as amended): [servo_source] and [filter_state] read their unset
    value until their first notification, and [attitude_source], a boolean
    with no unset value, reads [true]; [pilot_mode] and [control_mode] read
    their unset value until [send] starts, and from then until their first
    notification the value [send] asked of their producer. *)
Theorem unset_until_notified K link :
  (forall trace,
     Forall runnable trace ->
     exists s,
       run K trace (constructed link) = Some s /\
       (without notifies_servo_source trace ->
        servo_source (modes s) = NUM_AUTOPILOT_MODES) /\
       (without notifies_filter_state trace ->
        filter_state (modes s) = NUM_GX3_MODES) /\
       (without enters_send trace ->
        pilot_mode (modes s) = NUM_PILOT_MODES /\
        control_mode (modes s) = Num_Controller_Modes) /\
       (without notifies_attitude_source trace ->
        attitude_source (modes s) = true)) /\
  (forall pre env post,
     Forall runnable (pre ++ enter_send env :: post) ->
     without enters_send pre ->
     exists s,
       run K (pre ++ enter_send env :: post) (constructed link) = Some s /\
       (without notifies_pilot_mode post ->
        pilot_mode (modes s) = switch_get_pilot_mode env) /\
       (without notifies_control_mode post ->
        control_mode (modes s) = get_controller_mode env)).
Proof.
  split.
  - intros trace Hrun.
    destruct (run_total K trace (constructed link) Hrun) as (s & Hs).
    exists s. split; [done |].
    split; [| split; [| split]]; intros Hno.
    + destruct (run_preserves K _ _ (step_servo_source K) trace (constructed link))
        as (s' & Hs' & HP); [done .. |]. congruence.
    + destruct (run_preserves K _ _ (step_filter_state K) trace (constructed link))
        as (s' & Hs' & HP); [done .. |]. congruence.
    + destruct (run_preserves K _ _ (step_not_started K) trace (constructed link))
        as (s' & Hs' & _ & HP); [done .. |].
      assert (s' = s) as -> by congruence. by rewrite HP.
    + destruct (run_preserves K _ _ (step_attitude_source K) trace (constructed link))
        as (s' & Hs' & HP); [done .. |]. congruence.
  - intros pre env post Hrun Hpre.
    destruct (run_total K _ (constructed link) Hrun) as (s & Hs).
    exists s. split; [done |].
    apply Forall_app in Hrun as [Hrun1 Hrun2].
    apply Forall_cons in Hrun2 as [_ Hrun2].
    destruct (run_preserves K _ _ (step_not_started K) pre (constructed link))
      as (s1 & Hs1 & Hr1 & Hm1); [done .. |].
    rewrite run_app, Hs1 in Hs. cbn [mbind option_bind run step] in Hs.
    rewrite Hr1 in Hs.
    split; intros Hno.
    + destruct (run_preserves K _ _ (step_pilot_mode K (switch_get_pilot_mode env))
                  post (start env s1)) as (s' & Hs' & _ & HP); [done .. |].
      congruence.
    + destruct (run_preserves K _ _ (step_control_mode K (get_controller_mode env))
                  post (start env s1)) as (s' & Hs' & _ & HP); [done .. |].
      congruence.
Qed.

Lemma unset_until_notified_witness :
  Forall runnable silent_trace /\
  exists s,
    run K0 silent_trace (constructed idle_link) = Some s /\
    servo_source (modes s) = NUM_AUTOPILOT_MODES /\
    filter_state (modes s) = NUM_GX3_MODES /\
    attitude_source (modes s) = true /\
    pilot_mode (modes s) = PILOT_AUTO /\
    control_mode (modes s) = Mode_Attitude_Stabilization_PID.
Proof.
  assert (Forall runnable silent_trace) as Hrun.
  { unfold silent_trace.
    repeat (apply Forall_cons_2; [first [exact I | repeat split; cbn; lia] |]).
    apply Forall_nil_2. }
  split; [exact Hrun |].
  destruct (proj1 (unset_until_notified K0 idle_link) silent_trace Hrun)
    as (s & Hs & Hservo & Hfilter & _ & Hatt).
  exists s. split; [exact Hs |].
  split; [apply Hservo; by repeat constructor |].
  split; [apply Hfilter; by repeat constructor |].
  split; [apply Hatt; by repeat constructor |].
  vm_compute in Hs. injection Hs as <-. split; reflexivity.
Defined.

(** C8 as stated fails for [attitude_source], whose initial value [true]
    is a value its signal reports, and for [pilot_mode] and [control_mode]
    once [send] has started, before any notification. *)
Lemma unset_sentinel_missing :
  attitude_source (modes (constructed idle_link)) = true /\
  ~ reads_unset (modes (constructed idle_link)) /\
  exists s,
    run K0 [enter_send quiet_env] (constructed idle_link) = Some s /\
    valid_pilot_mode (pilot_mode (modes s)) = true /\
    valid_controller_mode (control_mode (modes s)) = true /\
    ~ reads_unset (modes s).
Proof.
  split; [reflexivity |]. split.
  - intros (_ & _ & _ & _ & Hatt). discriminate Hatt.
  - eexists. split; [reflexivity |]. split; [reflexivity |]. split; [reflexivity |].
    intros (_ & Hpilot & _). discriminate Hpilot.
Qed.

(** ** Status encoder *)

(** C2 (as amended): the status encoder asks servo_switch for the pilot
    mode exactly when the cached [pilot_mode] holds its unset value; every
    other field, [control_mode] with its unset value included, is encoded
    from the cache, and Control's current mode is never asked. *)
Theorem send_status_pilot_fallback K env this sendq :
  send_status K env this sendq
  = sendq ++ [ualberta_sys_status (uasId env) 200
                (qgc_servo_source K (servo_source this))
                (qgc_filter_state K (filter_state this))
                (qgc_pilot_mode K (if pilot_mode this is NUM_PILOT_MODES
                                   then switch_get_pilot_mode env else pilot_mode this))
                (qgc_control_mode K (control_mode this))
                (if attitude_source this then UALBERTA_NAV_FILTER K else UALBERTA_AHRS K)
                (get_engine_rpm env) (get_main_rotor_rpm env) (get_main_collective env)
                0 0 (qgc_trajectory K (get_trajectory_type env))] /\
  (pilot_mode this = NUM_PILOT_MODES ->
   status_pilot_mode env this = switch_get_pilot_mode env) /\
  (pilot_mode this <> NUM_PILOT_MODES ->
   status_pilot_mode env this = pilot_mode this /\
   forall v, send_status K (with_switch_pilot_mode v env) this sendq
             = send_status K env this sendq) /\
  (forall v, send_status K (with_controller_mode v env) this sendq
             = send_status K env this sendq) /\
  (control_mode this = Num_Controller_Modes ->
   qgc_control_mode K (control_mode this) = 255).
Proof.
  split; [done |]. split; [| split; [| split]].
  - intros Hp. unfold status_pilot_mode. by rewrite Hp.
  - intros Hp. unfold send_status, status_pilot_mode.
    by destruct (pilot_mode this).
  - done.
  - by intros ->.
Qed.

(** C2 as stated fails: with [control_mode] unset and [pilot_mode] cached,
    the cached pilot mode is encoded and servo_switch is not consulted; with
    [pilot_mode] unset and [control_mode] cached, it is. *)
Lemma control_mode_triggers_no_query :
  status_pilot_mode quiet_env control_unset = PILOT_MANUAL /\
  status_pilot_mode_as_specified quiet_env control_unset = PILOT_AUTO /\
  send_status K0 quiet_env control_unset []
  = [ualberta_sys_status 100 200 1 2 1 255 1 0 0 0 0 0 0] /\
  send_status K0 (with_switch_pilot_mode PILOT_MANUAL quiet_env) control_unset []
  = send_status K0 quiet_env control_unset [] /\
  status_pilot_mode quiet_env pilot_unset = PILOT_AUTO /\
  status_pilot_mode_as_specified quiet_env pilot_unset = NUM_PILOT_MODES /\
  send_status K0 quiet_env pilot_unset []
  = [ualberta_sys_status 100 200 1 2 2 1 1 0 0 0 0 0 0] /\
  status_pilot_mode quiet_env control_unset
  <> status_pilot_mode_as_specified quiet_env control_unset.
Proof. repeat split; try reflexivity. discriminate. Qed.

(** ** Copy construction and assignment *)

Lemma construct_lookup (this : nat) parent now m :
  let a := fresh (dom (Object.queues m)) in
  Object.objects (Object.construct this parent now m) !! this
  = Some {| Object.qgc := parent; Object.cache := initial_modes;
            Object.startTime := now; Object.send_queue := a;
            Object.message_queue := []; Object.attitude_source_connection := None |} /\
  Object.queues (Object.construct this parent now m) !! a = Some [].
Proof.
  unfold Object.construct, Object.new_queue, Object.store. cbn.
  by rewrite !lookup_insert_eq.
Qed.

Lemma modes_eta (m : ModeSnapshot) :
  {| servo_source := servo_source m; pilot_mode := pilot_mode m;
     filter_state := filter_state m; control_mode := control_mode m;
     attitude_source := attitude_source m |} = m.
Proof. by destruct m. Qed.

Lemma copy_construct_spec (this other : nat) m o content :
  Object.objects m !! other = Some o ->
  Object.queues m !! Object.send_queue o = Some content ->
  let a := fresh (dom (Object.queues m)) in
  Object.copy_construct this other m
  = Some {| Object.objects :=
              <[this := {| Object.qgc := Object.qgc o; Object.cache := Object.cache o;
                           Object.startTime := Object.startTime o;
                           Object.send_queue := a;
                           Object.message_queue := [];
                           Object.attitude_source_connection := None |}]>
                (Object.objects m);
            Object.queues := <[a := content]> (Object.queues m) |}.
Proof.
  intros Ho Hq a. unfold Object.copy_construct. rewrite Ho. cbn [mbind option_bind].
  rewrite Hq. cbn [mbind option_bind]. unfold Object.new_queue, Object.store. cbn.
  by rewrite modes_eta.
Qed.

Lemma assign_spec (this other : nat) m t o :
  this <> other ->
  Object.objects m !! this = Some t ->
  Object.objects m !! other = Some o ->
  Object.assign this other m
  = Some {| Object.objects :=
              <[this := {| Object.qgc := Object.qgc t; Object.cache := Object.cache o;
                           Object.startTime := Object.startTime t;
                           Object.send_queue := Object.send_queue t;
                           Object.message_queue := Object.message_queue t;
                           Object.attitude_source_connection :=
                             Object.attitude_source_connection t |}]>
                (Object.objects m);
            Object.queues := Object.queues m |}.
Proof.
  intros Hne Ht Ho. unfold Object.assign. rewrite decide_False by done.
  rewrite Ht. cbn [mbind option_bind]. rewrite Ho. cbn [mbind option_bind].
  unfold Object.store. by rewrite modes_eta.
Qed.

(** C9 (as amended): copy construction duplicates the cached mode fields,
    the parent pointer and the start time, and allocates a fresh send queue
    holding a copy of the queued packets; it copies no subscription.  Copy
    assignment duplicates the cached mode fields only and leaves the target's
    start time, send queue, parent pointer and subscription as they were;
    self-assignment leaves everything unchanged. *)
Theorem copy_operations :
  (forall (this other : nat) m o content,
     Object.objects m !! other = Some o ->
     Object.queues m !! Object.send_queue o = Some content ->
     exists m' n,
       Object.copy_construct this other m = Some m' /\
       Object.objects m' !! this = Some n /\
       Object.cache n = Object.cache o /\
       Object.qgc n = Object.qgc o /\
       Object.startTime n = Object.startTime o /\
       (Object.send_queue n ∉ dom (Object.queues m)) /\
       Object.send_queue n <> Object.send_queue o /\
       Object.queues m' !! Object.send_queue n = Some content /\
       (forall a, a <> Object.send_queue n ->
                  Object.queues m' !! a = Object.queues m !! a) /\
       Object.attitude_source_connection n = None /\
       Object.message_queue n = [] /\
       (forall b, b <> this -> Object.objects m' !! b = Object.objects m !! b)) /\
  (forall (this other : nat) m t o,
     this <> other ->
     Object.objects m !! this = Some t ->
     Object.objects m !! other = Some o ->
     exists m' n,
       Object.assign this other m = Some m' /\
       Object.objects m' !! this = Some n /\
       Object.cache n = Object.cache o /\
       Object.startTime n = Object.startTime t /\
       Object.send_queue n = Object.send_queue t /\
       Object.qgc n = Object.qgc t /\
       Object.attitude_source_connection n = Object.attitude_source_connection t /\
       Object.message_queue n = Object.message_queue t /\
       Object.queues m' = Object.queues m /\
       (forall b, b <> this -> Object.objects m' !! b = Object.objects m !! b)) /\
  (forall (this : nat) m, Object.assign this this m = Some m).
Proof.
  split; [| split].
  - intros this other m o content Ho Hq.
    assert (fresh (dom (Object.queues m)) ∉ dom (Object.queues m)) as Hfresh
      by apply is_fresh.
    eexists _, _. split; [by apply copy_construct_spec |].
    cbn [Object.objects Object.queues].
    split; [by rewrite lookup_insert_eq |].
    cbn [Object.cache Object.qgc Object.startTime Object.send_queue
         Object.attitude_source_connection Object.message_queue].
    repeat split; try done.
    + intros Heq. apply Hfresh. rewrite Heq. apply elem_of_dom. by eexists.
    + by rewrite lookup_insert_eq.
    + intros a Ha. by rewrite lookup_insert_ne.
    + intros b Hb. by rewrite lookup_insert_ne.
  - intros this other m t o Hne Ht Ho.
    eexists _, _. split; [by apply assign_spec |].
    cbn [Object.objects Object.queues].
    split; [by rewrite lookup_insert_eq |].
    repeat split; try done.
    intros b Hb. by rewrite lookup_insert_ne.
  - intros this m. unfold Object.assign. by rewrite decide_True.
Qed.

Lemma copy_operations_witness :
  exists o content,
    Object.objects (one_sender 42) !! 1%nat = Some o /\
    Object.queues (one_sender 42) !! Object.send_queue o = Some content /\
    exists m' n,
      Object.copy_construct 2 1 (one_sender 42) = Some m' /\
      Object.objects m' !! 2%nat = Some n /\
      Object.cache n = initial_modes /\
      Object.send_queue n <> Object.send_queue o /\
      Object.queues m' !! Object.send_queue n = Some [] /\
      Object.attitude_source_connection n = None.
Proof.
  destruct (construct_lookup 1 None 42 empty_memory) as [Ho Hq].
  eexists _, _. split; [exact Ho |]. split; [exact Hq |].
  destruct (proj1 copy_operations 2%nat 1%nat (one_sender 42) _ _ Ho Hq)
    as (m' & n & Hcopy & Hn & Hcache & _ & _ & _ & Hptr & Hcontent & _ & Hconn & _).
  exists m', n. split; [exact Hcopy |]. split; [exact Hn |].
  split; [exact Hcache |]. split; [exact Hptr |]. split; [exact Hcontent | exact Hconn].
Defined.

(** C9 as stated fails: the copy constructor copies the start time; the
    copy of a sender started at 42 starts at 42, of one started at 43 at 43. *)
Lemma copy_construct_copies_start_time :
  (exists m' n,
     Object.copy_construct 2 1 (one_sender 42) = Some m' /\
     Object.objects m' !! 2%nat = Some n /\ Object.startTime n = 42) /\
  (exists m' n,
     Object.copy_construct 2 1 (one_sender 43) = Some m' /\
     Object.objects m' !! 2%nat = Some n /\ Object.startTime n = 43).
Proof.
  split.
  - destruct (construct_lookup 1 None 42 empty_memory) as [Ho Hq].
    eexists _, _. split; [exact (copy_construct_spec 2 1 _ _ _ Ho Hq) |].
    cbn [Object.objects]. by rewrite lookup_insert_eq.
  - destruct (construct_lookup 1 None 43 empty_memory) as [Ho Hq].
    eexists _, _. split; [exact (copy_construct_spec 2 1 _ _ _ Ho Hq) |].
    cbn [Object.objects]. by rewrite lookup_insert_eq.
Qed.

(** ** Single-parameter replies *)

(** C6: the single-parameter request queue is emptied, oldest request
    first, one reply per request behind what is queued, every reply with
    count 1 and index -1; in an iteration the replies stand in the send queue
    and the request queue is left empty. *)
Theorem send_requested_params_drains K :
  (forall uas (requested : list Param) sendq,
     send_requested_params K uas requested sendq
     = ([], sendq ++ map (fun p => param_value uas (to_uint8 (getCompID p)) (getParamID p)
                                     (getValue p) (MAV_VAR_FLOAT K) 1 (-1)) requested)) /\
  (forall env s,
     scheduled env ->
     exists s1 before behind,
       enqueue K env s = Some s1 /\
       requested_params (qgc s1) = [] /\
       send_queue s1
       = before
         ++ map (fun p => param_value (uasId env) (to_uint8 (getCompID p)) (getParamID p)
                            (getValue p) (MAV_VAR_FLOAT K) 1 (-1)) (requested_params (qgc s))
         ++ behind).
Proof.
  split.
  - intros uas requested sendq. apply send_requested_params_replies.
  - intros env s Hrates.
    exists (assembled K env s),
      (send_queue s ++ status_part K env s ++ dump_part K env s ++ rc_part env s
       ++ effort_part K env s),
      (calibration_part K env s ++ driver_part env s ++ console_part env s).
    split; [by apply enqueue_spec |]. split; [done |].
    cbn [send_queue assembled]. unfold enqueued. by rewrite <- !app_assoc.
Qed.

Lemma send_requested_params_drains_witness :
  scheduled busy_env /\
  exists s1,
    enqueue K0 busy_env busy_state = Some s1 /\
    requested_params (qgc s1) = [] /\
    send_queue s1 !! 7%nat = Some (param_value 100 20 "ROLL_KD" 12 9 1 (-1)).
Proof.
  assert (scheduled busy_env) as Hrates by (repeat split; cbn; lia).
  split; [exact Hrates |].
  destruct (proj2 (send_requested_params_drains K0) busy_env busy_state Hrates)
    as (s1 & before & behind & Hs1 & Hreq & _).
  exists s1. split; [exact Hs1 |]. split; [exact Hreq |].
  vm_compute in Hs1. injection Hs1 as <-. reflexivity.
Defined.

(** * Further properties *)

(** ** RateScheduler: the edges of the schedule *)

(** X1: for a base rate [b > 0] and an iteration [n >= 0], [should_run] has
    no defined result exactly when the stream rate is below [- b]. *)
Theorem should_run_undefined_iff (r b n : Z) :
  0 < b -> 0 <= n -> (should_run r b n = None <-> r < - b).
Proof.
  intros Hb Hn. unfold should_run.
  destruct (Z.eqb_spec r 0) as [-> | Hr0]; [cbn; split; [done | lia] |].
  destruct (Z.gtb_spec r b) as [Hgt | Hle]; [cbn; split; [done | lia] |].
  cbn [orb]. unfold CInt.div, CInt.rem, CInt.undefined_division.
  replace (r =? 0) with false by lia.
  replace (b =? CInt.INT_MIN) with false by (unfold CInt.INT_MIN; lia).
  cbn [orb andb mbind option_bind].
  replace (n =? CInt.INT_MIN) with false by (unfold CInt.INT_MIN; lia).
  cbn [andb]. rewrite orb_false_r.
  pose proof (Z.quot_small_iff b r Hr0) as Hsmall.
  destruct (Z.eqb_spec (Z.quot b r) 0) as [H0 | H0]; cbn [mbind option_bind].
  - split; [intros _ | done]. apply Hsmall in H0. lia.
  - split; [done |]. intros Hneg. exfalso. apply H0, Hsmall. lia.
Qed.

Lemma should_run_undefined_iff_witness :
  0 < 200 /\ 0 <= 7 /\ (should_run (-201) 200 7 = None <-> -201 < - 200) /\
  should_run (-200) 200 7 <> None.
Proof.
  split; [lia |]. split; [lia |].
  split; [apply (should_run_undefined_iff (-201) 200 7); lia |].
  intros H. apply (should_run_undefined_iff (-200) 200 7) in H; lia.
Defined.

(** X2: a stream with rate [0 < r <= b] fires at least [r] times in any [b]
    consecutive iterations: a rate that does not divide the base rate is
    rounded up, never down. *)
Theorem should_run_fires_at_least (r b n : Z) :
  0 < r <= b -> 0 <= n -> r <= Z.of_nat (fires r b n (Z.to_nat b)).
Proof.
  intros Hr Hn. pose proof (period_pos r b Hr) as Hd.
  rewrite fires_count by lia. rewrite Z2Nat.id by lia.
  pose proof (Z.mul_div_le b r ltac:(lia)) as Hle.
  assert ((n - 1) / (b / r) + r <= (n + b - 1) / (b / r)); [| lia].
  rewrite <- Z.div_add by lia. apply Z.div_le_mono; lia.
Qed.

Lemma should_run_fires_at_least_witness :
  0 < 3 <= 200 /\ 0 <= 0 /\ 3 <= Z.of_nat (fires 3 200 0 (Z.to_nat 200)) /\
  fires 3 200 0 200 = 4%nat.
Proof.
  split; [lia |]. split; [lia |].
  split; [apply (should_run_fires_at_least 3 200 0); lia | reflexivity].
Defined.

(** X3: a stream whose rate is above half the base rate (and not above the
    base rate) fires in every iteration. *)
Theorem should_run_above_half (r b n : Z) :
  b < 2 * r -> r <= b -> 0 <= n -> should_run r b n = Some true.
Proof.
  intros Hhalf Hle Hn. rewrite should_run_active by lia.
  assert (b / r = 1) as ->.
  { symmetry. apply (Z.div_unique_pos b r 1 (b - r)); lia. }
  by rewrite Z.mod_1_r.
Qed.

Lemma should_run_above_half_witness :
  200 < 2 * 150 /\ 150 <= 200 /\ 0 <= 3 /\ should_run 150 200 3 = Some true.
Proof.
  split; [lia |]. split; [lia |]. split; [lia |].
  apply (should_run_above_half 150 200 3); lia.
Defined.

(** X4: a negative stream rate that is not below [- b] schedules like its
    absolute value. *)
Theorem should_run_negative_mirror (r b n : Z) :
  - b <= r < 0 -> 0 <= n -> should_run r b n = should_run (- r) b n.
Proof.
  intros Hr Hn.
  assert (0 < - r <= b) as Hpos by lia.
  pose proof (period_pos (- r) b Hpos) as Hd.
  rewrite (should_run_active (- r) b Hpos) by lia.
  unfold should_run.
  replace (r =? 0) with false by lia. replace (r >? b) with false by lia.
  cbn [orb]. unfold CInt.div, CInt.rem, CInt.undefined_division.
  replace (r =? 0) with false by lia.
  replace (b =? CInt.INT_MIN) with false by (unfold CInt.INT_MIN; lia).
  cbn [orb andb mbind option_bind].
  assert (Z.quot b r = - (b / - r)) as ->.
  { replace r with (- - r) at 1 by lia.
    rewrite Z.quot_opp_r by lia. by rewrite Z.quot_div_nonneg by lia. }
  replace (- (b / - r) =? 0) with false by lia.
  replace (n =? CInt.INT_MIN) with false by (unfold CInt.INT_MIN; lia).
  cbn [orb andb mbind option_bind].
  rewrite Z.rem_opp_r by lia. by rewrite Z.rem_mod_nonneg by lia.
Qed.

Lemma should_run_negative_mirror_witness :
  - 200 <= -2 < 0 /\ 0 <= 100 /\ should_run (-2) 200 100 = should_run (- -2) 200 100.
Proof.
  split; [lia |]. split; [lia |].
  apply (should_run_negative_mirror (-2) 200 100); lia.
Defined.

(** ** Status encoder: the wire codes *)




(** ** The dispatch loop over several iterations *)

(** One iteration with defined schedules, whatever the socket does. *)
Lemma iteration_spec K env s :
  scheduled env ->
  iteration K env s
  = Some ({| running := running s; modes := modes s;
             send_queue := send_queue (flush env (assembled K env s)).1;
             message_queue := tail (message_queue s); qgc := idle_link;
             loop_count := CInt.to_int (loop_count s + 1);
             socket_log := socket_log (flush env (assembled K env s)).1;
             warnings := warnings (flush env (assembled K env s)).1 |}, normal).
Proof.
  intros Hrates. unfold iteration. rewrite enqueue_spec by done.
  cbn [mbind option_bind]. unfold flush.
  by destruct (flush_loop _ _ _) as [[calls rest] c].
Qed.

Lemma delivered_app (c1 c2 : list (Packet * option string)) :
  delivered (c1 ++ c2) = delivered c1 ++ delivered c2.
Proof. unfold delivered. apply omap_app. Qed.

Lemma filter_other_stream (k : Stream) (l : list Packet) :
  k <> console_stream ->
  Forall (fun p => stream_of p = k) l -> List.filter is_console l = [].
Proof.
  intros Hk Hl. induction Hl as [| p l Hp Hl IH]; [done |].
  cbn [List.filter]. rewrite IH.
  destruct p; cbn in Hp |- *; done.
Qed.

Lemma filter_console_part env s : List.filter is_console (console_part env s) = console_part env s.
Proof. unfold console_part. by destruct (message_queue s). Qed.

Lemma filter_console_enqueued K env s :
  well_formed env -> List.filter is_console (enqueued K env s) = console_part env s.
Proof.
  intros [_ Hmax]. unfold enqueued. rewrite !List.filter_app.
  rewrite (filter_other_stream status_stream _ ltac:(done) (status_part_stream K env s)).
  rewrite (filter_other_stream dump_stream _ ltac:(done) (dump_part_stream K env s Hmax)).
  rewrite (filter_other_stream rc_stream _ ltac:(done) (rc_part_stream env s)).
  rewrite (filter_other_stream effort_stream _ ltac:(done) (effort_part_stream K env s)).
  rewrite (filter_other_stream reply_stream _ ltac:(done) (reply_part_stream K env s)).
  rewrite (filter_other_stream calibration_stream _ ltac:(done) (calibration_part_stream K env s)).
  rewrite (filter_other_stream driver_stream _ ltac:(done) (driver_part_stream env s)).
  apply filter_console_part.
Qed.

(** X6: with a socket that accepts everything, a run of iterations sends
    the messages waiting in the console mailbox one per iteration, oldest
    first, each encoded under the collaborators of its iteration; after as
    many iterations as there were messages the mailbox is empty. *)
Theorem console_mailbox_drains K (envs : list Env) : forall s,
  Forall (fun env => healthy env /\ well_formed env) envs ->
  running s = true ->
  send_queue s = [] ->
  exists s',
    run K (turns envs) s = Some s' /\
    List.filter is_console (delivered (socket_log s'))
    = List.filter is_console (delivered (socket_log s))
      ++ console_packets envs (message_queue s) /\
    message_queue s' = drop (length envs) (message_queue s) /\
    send_queue s' = [].
Proof.
  induction envs as [| env envs IH]; intros s Henvs Hrun Hq.
  - exists s. cbn. by rewrite app_nil_r, drop_0.
  - apply Forall_cons in Henvs as [[Hhealthy Hwf] Henvs].
    cbn [turns fmap list_fmap run step]. rewrite Hrun.
    rewrite iteration_healthy by done. cbn [fmap option_fmap option_map mbind option_bind fst].
    fold (turns envs).
    match goal with
    | |- exists _, run K _ ?st = _ /\ _ =>
        destruct (IH st Henvs Hrun eq_refl) as (s' & Hs' & Hlog & Hmq & Hq')
    end.
    exists s'. split; [exact Hs' |].
    rewrite Hlog, Hmq, Hq'. cbn [socket_log message_queue].
    rewrite delivered_app, delivered_accepted, Hq, app_nil_l, List.filter_app.
    rewrite filter_console_enqueued by done.
    split; [| split; [| done]].
    + rewrite <- app_assoc. f_equal.
      unfold console_part, console_packets.
      destruct (message_queue s) as [| message mq]; cbn; [| done].
      by destruct envs.
    + destruct (message_queue s); cbn [tail length]; [by rewrite !drop_nil | done].
Qed.

Lemma console_mailbox_drains_witness :
  Forall (fun env => healthy env /\ well_formed env) [busy_env; quiet_env] /\
  exists s',
    run K0 (turns [busy_env; quiet_env]) busy_state = Some s' /\
    List.filter is_console (delivered (socket_log s'))
    = [statustext 100 0 255 (resize 50 "Critical: overheat");
       statustext 100 0 0 (resize 50 "Warning: low battery")] /\
    message_queue s' = [].
Proof.
  assert (Forall (fun env => healthy env /\ well_formed env) [busy_env; quiet_env]) as Henvs.
  { repeat (apply Forall_cons_2;
            [repeat split; cbn; first [lia | unfold CInt.INT_MAX; lia] |]).
    apply Forall_nil_2. }
  split; [exact Henvs |].
  destruct (console_mailbox_drains K0 [busy_env; quiet_env] busy_state Henvs eq_refl eq_refl)
    as (s' & Hs' & Hlog & Hmq & _).
  exists s'. split; [exact Hs' |]. split; [exact Hlog | exact Hmq].
Defined.

(** X7: the request latches are served once: after an iteration the
    full-dump latch, the single-parameter request queue and the calibration
    latch are clear, so unless a new request arrives the next iteration
    queues no parameter and no calibration packet. *)
Theorem requests_served_once K env env' s :
  scheduled env ->
  exists s',
    iteration K env s = Some (s', normal) /\
    param_recv (qgc s') = false /\
    requested_params (qgc s') = [] /\
    requested_rc_calibration (qgc s') = false /\
    enqueued K env' s'
    = status_part K env' s' ++ rc_part env' s' ++ effort_part K env' s'
      ++ driver_part env' s' ++ console_part env' s'.
Proof.
  intros Hrates. eexists. split; [by apply iteration_spec |].
  cbn [qgc]. split; [done |]. split; [done |]. split; [done |].
  unfold enqueued, dump_part, reply_part, calibration_part. cbn [qgc]. done.
Qed.

Lemma requests_served_once_witness :
  scheduled busy_env /\
  exists s',
    iteration K0 busy_env busy_state = Some (s', normal) /\
    param_recv (qgc s') = false /\
    requested_params (qgc s') = [] /\
    requested_rc_calibration (qgc s') = false /\
    dump_part K0 busy_env busy_state <> [] /\
    dump_part K0 busy_env s' = [].
Proof.
  assert (scheduled busy_env) as Hrates by (repeat split; cbn; lia).
  split; [exact Hrates |].
  destruct (requests_served_once K0 busy_env busy_env busy_state Hrates)
    as (s' & Hs' & Hrecv & Hreq & Hcal & _).
  exists s'. split; [exact Hs' |]. split; [exact Hrecv |]. split; [exact Hreq |].
  split; [exact Hcal |]. split; [discriminate |].
  unfold dump_part. by rewrite Hrecv.
Defined.

(** X8: the iteration counter counts the iterations, whether or not their
    flush met a fault: from a counter [c >= 0], [n] iterations with
    [c + n <= INT_MAX] leave [c + n]. *)
Theorem loop_count_counts K (envs : list Env) : forall s,
  Forall scheduled envs ->
  running s = true ->
  0 <= loop_count s ->
  loop_count s + Z.of_nat (length envs) <= CInt.INT_MAX ->
  exists s',
    run K (turns envs) s = Some s' /\
    loop_count s' = loop_count s + Z.of_nat (length envs).
Proof.
  induction envs as [| env envs IH]; intros s Henvs Hrun Hc Hmax.
  - exists s. cbn. split; [done | lia].
  - apply Forall_cons in Henvs as [Hrates Henvs]. cbn [length] in Hmax.
    cbn [turns fmap list_fmap run step]. rewrite Hrun.
    rewrite iteration_spec by done.
    cbn [fmap option_fmap option_map mbind option_bind fst]. fold (turns envs).
    assert (CInt.to_int (loop_count s + 1) = loop_count s + 1) as Hnext.
    { apply to_int_in_range. unfold CInt.in_range, CInt.INT_MIN, CInt.INT_MAX in *. lia. }
    match goal with
    | |- exists _, run K _ ?st = _ /\ _ =>
        assert (0 <= loop_count st) as Hc1 by (cbn [loop_count]; lia);
        assert (loop_count st + Z.of_nat (length envs) <= CInt.INT_MAX) as Hmax1
          by (cbn [loop_count]; lia);
        destruct (IH st Henvs Hrun Hc1 Hmax1) as (s' & Hs' & Hcount)
    end.
    exists s'. split; [exact Hs' |].
    rewrite Hcount. cbn [loop_count length]. lia.
Qed.

Lemma loop_count_counts_witness :
  Forall scheduled [busy_env; down_env; quiet_env] /\
  exists s',
    run K0 (turns [busy_env; down_env; quiet_env]) busy_state = Some s' /\
    loop_count s' = 3 /\ warnings s' = ["Network is down"%string].
Proof.
  assert (Forall scheduled [busy_env; down_env; quiet_env]) as Henvs.
  { repeat (apply Forall_cons_2; [repeat split; cbn; lia |]). apply Forall_nil_2. }
  split; [exact Henvs |].
  assert (loop_count busy_state + Z.of_nat (length [busy_env; down_env; quiet_env])
          <= CInt.INT_MAX) as Hmax by (cbn; unfold CInt.INT_MAX; lia).
  destruct (loop_count_counts K0 [busy_env; down_env; quiet_env] busy_state Henvs eq_refl
              ltac:(cbn; lia) Hmax) as (s' & Hs' & Hcount).
  exists s'. split; [exact Hs' |]. split; [exact Hcount |].
  vm_compute in Hs'. injection Hs' as <-. reflexivity.
Defined.

(** X9: whatever the socket does, an iteration loses, repeats and reorders
    nothing: the packets the socket has accepted so far followed by the
    packets still queued are those accepted before, the queue before and
    the packets the iteration queued, in that order. *)
Theorem iteration_conserves_packets K env s :
  scheduled env ->
  exists s',
    iteration K env s = Some (s', normal) /\
    delivered (socket_log s') ++ send_queue s'
    = delivered (socket_log s) ++ send_queue s ++ enqueued K env s.
Proof.
  intros Hrates. eexists. split; [by apply iteration_spec |].
  cbn [socket_log send_queue].
  destruct (flush_fifo env (assembled K env s)) as (calls & -> & Hfifo & _).
  rewrite delivered_app, <- app_assoc, Hfifo. done.
Qed.

Lemma iteration_conserves_packets_witness :
  scheduled down_env /\
  exists s',
    iteration K0 down_env busy_state = Some (s', normal) /\
    delivered (socket_log s') = [] /\
    send_queue s' = enqueued K0 down_env busy_state.
Proof.
  assert (scheduled down_env) as Hrates by (repeat split; cbn; lia).
  split; [exact Hrates |].
  destruct (iteration_conserves_packets K0 down_env busy_state Hrates) as (s' & Hs' & _).
  exists s'. split; [exact Hs' |].
  vm_compute in Hs'. injection Hs' as <-. split; reflexivity.
Defined.

(** X10: a flush makes at most one call that the socket refuses, and that
    call is its last; it hands the diagnostic sink exactly the texts of the
    refused calls, and when no call is refused it leaves the queue empty. *)
Theorem flush_reports_refusal env s :
  exists calls,
    socket_log (flush env s).1 = socket_log s ++ calls /\
    warnings (flush env s).1 = warnings s ++ refusals calls /\
    (length (refusals calls) <= 1)%nat /\
    (forall (i : nat) p what, calls !! i = Some (p, Some what) -> S i = length calls) /\
    (refusals calls = [] <-> send_queue (flush env s).1 = []).
Proof.
  assert (forall l, refusals (accepted l) = []) as Hnone.
  { intros l. unfold refusals, accepted. induction l as [| p l IH]; [done |]. by cbn. }
  unfold flush.
  destruct (flush_loop_cases (send_to env) (send_queue s) 0)
    as [-> | (k & p & what & Hk & ->)]; cbn [fst snd send_queue socket_log warnings].
  - exists (accepted (send_queue s)). rewrite Hnone, app_nil_r.
    split; [done |]. split; [done |]. split; [cbn; lia |]. split; [| done].
    intros i q what. unfold accepted. rewrite list_lookup_fmap.
    destruct (send_queue s !! i); cbn; congruence.
  - eexists. split; [done |].
    unfold refusals. rewrite omap_app. fold (refusals (accepted (take k (send_queue s)))).
    rewrite Hnone. cbn [app omap list_omap snd].
    split; [done |]. split; [cbn; lia |]. split.
    + intros i q what' Hi. rewrite length_app. cbn [length].
      destruct (decide (i < length (accepted (take k (send_queue s))))%nat) as [Hlt | Hge].
      * rewrite lookup_app_l in Hi by done. unfold accepted in Hi.
        rewrite list_lookup_fmap in Hi.
        destruct (take k (send_queue s) !! i); cbn in Hi; congruence.
      * apply lookup_lt_Some in Hi. rewrite length_app in Hi. cbn [length] in Hi. lia.
    + split; [done |]. intros Hq. apply (f_equal length) in Hq.
      rewrite length_drop in Hq. apply lookup_lt_Some in Hk. cbn in Hq. lia.
Qed.

(** ** Lifetime of a copy *)

(** X11: a copy owns its queue: destroying the copy frees only the queue
    the copy constructor allocated and leaves the queues as they were before
    the copy, so the source can still be destroyed afterwards, which frees
    the source's queue. *)
Theorem copy_then_destroy (this other : nat) m o content :
  this <> other ->
  Object.objects m !! other = Some o ->
  Object.queues m !! Object.send_queue o = Some content ->
  exists m1 m2 m3,
    Object.copy_construct this other m = Some m1 /\
    destroy this m1 = Some m2 /\
    Object.queues m2 = Object.queues m /\
    Object.objects m2 !! other = Some o /\
    destroy other m2 = Some m3 /\
    Object.queues m3 !! Object.send_queue o = None.
Proof.
  intros Hne Ho Hq.
  assert (Object.queues m !! fresh (dom (Object.queues m)) = None) as Hfresh.
  { apply not_elem_of_dom, is_fresh. }
  rewrite (copy_construct_spec this other m o content Ho Hq).
  eexists _, _, _. split; [done |].
  unfold destroy at 1. cbn [Object.objects Object.queues].
  rewrite lookup_insert_eq. cbn [mbind option_bind Object.send_queue].
  rewrite lookup_insert_eq. cbn [mbind option_bind].
  split; [done |]. cbn [Object.objects Object.queues].
  rewrite delete_insert_eq, (delete_id _ _ Hfresh).
  split; [done |].
  rewrite lookup_delete_ne, lookup_insert_ne by done.
  split; [done |].
  unfold destroy. cbn [Object.objects Object.queues].
  rewrite lookup_delete_ne, lookup_insert_ne by done. rewrite Ho.
  cbn [mbind option_bind]. rewrite Hq. cbn [mbind option_bind].
  split; [done |]. cbn [Object.queues]. apply lookup_delete_eq.
Qed.

Lemma copy_then_destroy_witness :
  exists o content,
    Object.objects (one_sender 42) !! 1%nat = Some o /\
    Object.queues (one_sender 42) !! Object.send_queue o = Some content /\
    exists m1 m2 m3,
      Object.copy_construct 2 1 (one_sender 42) = Some m1 /\
      destroy 2 m1 = Some m2 /\
      Object.queues m2 = Object.queues (one_sender 42) /\
      destroy 1 m2 = Some m3 /\
      Object.queues m3 !! Object.send_queue o = None.
Proof.
  destruct (construct_lookup 1 None 42 empty_memory) as [Ho Hq].
  eexists _, _. split; [exact Ho |]. split; [exact Hq |].
  destruct (copy_then_destroy 2 1 (one_sender 42) _ _ ltac:(discriminate) Ho Hq)
    as (m1 & m2 & m3 & H1 & H2 & Hqueues & _ & H3 & Hfreed).
  exists m1, m2, m3. split; [exact H1 |]. split; [exact H2 |].
  split; [exact Hqueues |]. split; [exact H3 | exact Hfreed].
Defined.

(** ** LogFile::logData *)










(** ** Encoders only append *)

Lemma send_param_inner_length K uas num (items : list Param) : forall index sendq,
  length (send_param_inner K uas num items index sendq).2
  = (length sendq + length items)%nat.
Proof.
  induction items as [| p items IH]; intros index sendq; cbn [send_param_inner snd length].
  - lia.
  - rewrite IH. unfold push. rewrite length_app. cbn. lia.
Qed.

Lemma send_param_outer_length K uas num (plist : list (list Param)) : forall index sendq,
  length (send_param_outer K uas num plist index sendq).2
  = (length sendq + length (concat plist))%nat.
Proof.
  induction plist as [| items plist IH]; intros index sendq;
    cbn [send_param_outer concat snd].
  - cbn. lia.
  - destruct (send_param_inner K uas num items index sendq) as [index' sendq'] eqn:Hinner.
    rewrite IH, length_app.
    pose proof (send_param_inner_length K uas num items index sendq) as Hlen.
    rewrite Hinner in Hlen. cbn [snd] in Hlen. lia.
Qed.

(** X13: every encoder leaves the packets already queued in place and
    pushes behind them a number of packets that does not depend on the
    queue: one heartbeat, one status, two RC channel packets, one control
    effort, one calibration, one console packet, one packet per parameter
    (however many there are), one per request and one per driver message. *)
Theorem encoders_append_only K env this message requested count (sendq : list Packet) :
  (sendq `prefix_of` send_heartbeat K sendq /\
   length (send_heartbeat K sendq) = S (length sendq)) /\
  (sendq `prefix_of` send_status K env this sendq /\
   length (send_status K env this sendq) = S (length sendq)) /\
  (sendq `prefix_of` send_rc_channels env sendq /\
   length (send_rc_channels env sendq) = S (S (length sendq))) /\
  (sendq `prefix_of` send_control_effort K env sendq /\
   length (send_control_effort K env sendq) = S (length sendq)) /\
  (sendq `prefix_of` send_rc_calibration K env sendq /\
   length (send_rc_calibration K env sendq) = S (length sendq)) /\
  (sendq `prefix_of` send_console_message env message sendq /\
   length (send_console_message env message sendq) = S (length sendq)) /\
  (sendq `prefix_of` send_param K env sendq /\
   length (send_param K env sendq)
   = (length sendq
      + length (Control_getParameters env ++ Helicopter_getParameters env))%nat) /\
  (sendq `prefix_of` (send_requested_params K (uasId env) requested sendq).2 /\
   length (send_requested_params K (uasId env) requested sendq).2
   = (length sendq + length requested)%nat) /\
  (sendq `prefix_of` send_driver_messages env count sendq /\
   length (send_driver_messages env count sendq)
   = (length sendq + driver_message_count env count)%nat).
Proof.
  repeat split;
    try (unfold send_heartbeat, send_status, send_rc_channels, send_control_effort,
           send_rc_calibration, send_console_message, push;
         rewrite <- ?app_assoc; first [by apply prefix_app_r | rewrite !length_app; cbn; lia]).
  - rewrite send_param_app. by apply prefix_app_r.
  - unfold send_param. rewrite send_param_outer_length. unfold parameter_sources. cbn.
    by rewrite app_nil_r.
  - rewrite send_requested_params_replies. by apply prefix_app_r.
  - rewrite send_requested_params_replies. cbn [snd].
    by rewrite length_app, length_map.
  - rewrite send_driver_messages_app. by apply prefix_app_r.
  - rewrite send_driver_messages_app, length_app. f_equal.
    unfold driver_message_count.
    induction (getDrivers env) as [| driver drivers IH]; [done |].
    cbn. rewrite !length_app, length_fmap. by f_equal.
Qed.

(** ** Scheduler and loop together *)

Lemma filter_foreign (f : Packet -> bool) (k0 k : Stream) (l : list Packet) :
  (forall p, f p = true -> stream_of p = k0) ->
  k <> k0 ->
  Forall (fun p => stream_of p = k) l -> List.filter f l = [].
Proof.
  intros Hf Hk Hl. induction Hl as [| p l Hp Hl IH]; [done |].
  cbn [List.filter]. rewrite IH.
  destruct (f p) eqn:Hfp; [| done]. apply Hf in Hfp. congruence.
Qed.

Lemma is_heartbeat_status (p : Packet) : is_heartbeat p = true -> stream_of p = status_stream.
Proof. by destruct p. Qed.

Lemma heartbeats_enqueued K env s :
  well_formed env ->
  length (List.filter is_heartbeat (enqueued K env s))
  = if should_run (get_heartbeat_rate env) send_rate (loop_count s) is Some true
    then 1%nat else 0%nat.
Proof.
  intros [_ Hmax]. unfold enqueued. rewrite !List.filter_app.
  rewrite (filter_foreign _ _ dump_stream _ is_heartbeat_status ltac:(done)
             (dump_part_stream K env s Hmax)).
  rewrite (filter_foreign _ _ rc_stream _ is_heartbeat_status ltac:(done)
             (rc_part_stream env s)).
  rewrite (filter_foreign _ _ effort_stream _ is_heartbeat_status ltac:(done)
             (effort_part_stream K env s)).
  rewrite (filter_foreign _ _ reply_stream _ is_heartbeat_status ltac:(done)
             (reply_part_stream K env s)).
  rewrite (filter_foreign _ _ calibration_stream _ is_heartbeat_status ltac:(done)
             (calibration_part_stream K env s)).
  rewrite (filter_foreign _ _ driver_stream _ is_heartbeat_status ltac:(done)
             (driver_part_stream env s)).
  rewrite (filter_foreign _ _ console_stream _ is_heartbeat_status ltac:(done)
             (console_part_stream env s)).
  rewrite !app_nil_r. unfold status_part, due.
  by destruct (should_run _ _ _) as [[|] |].
Qed.

(** X14: with a socket that accepts everything, the number of heartbeats
    sent during a run of iterations that all read the heartbeat rate [r] is
    the number of those iterations at which [should_run] is true: from the
    iteration counter [c] on, [fires r 200 c n] for [n] iterations. *)
Theorem heartbeats_follow_schedule K (r : Z) (envs : list Env) : forall s,
  Forall (fun env => healthy env /\ well_formed env /\ get_heartbeat_rate env = r) envs ->
  running s = true ->
  send_queue s = [] ->
  0 <= loop_count s ->
  loop_count s + Z.of_nat (length envs) <= CInt.INT_MAX ->
  exists s',
    run K (turns envs) s = Some s' /\
    length (List.filter is_heartbeat (delivered (socket_log s')))
    = (length (List.filter is_heartbeat (delivered (socket_log s)))
       + fires r send_rate (loop_count s) (length envs))%nat.
Proof.
  induction envs as [| env envs IH]; intros s Henvs Hrun Hq Hc Hmax.
  - exists s. cbn. split; [done | lia].
  - apply Forall_cons in Henvs as [(Hhealthy & Hwf & Hrate) Henvs]. cbn [length] in Hmax.
    cbn [turns fmap list_fmap run step]. rewrite Hrun.
    rewrite iteration_healthy by done.
    cbn [fmap option_fmap option_map mbind option_bind fst]. fold (turns envs).
    assert (CInt.to_int (loop_count s + 1) = loop_count s + 1) as Hnext.
    { apply to_int_in_range. unfold CInt.in_range, CInt.INT_MIN, CInt.INT_MAX in *. lia. }
    match goal with
    | |- exists _, run K _ ?st = _ /\ _ =>
        assert (0 <= loop_count st) as Hc1 by (cbn [loop_count]; lia);
        assert (loop_count st + Z.of_nat (length envs) <= CInt.INT_MAX) as Hmax1
          by (cbn [loop_count]; lia);
        destruct (IH st Henvs Hrun eq_refl Hc1 Hmax1) as (s' & Hs' & Hcount)
    end.
    exists s'. split; [exact Hs' |].
    rewrite Hcount. cbn [socket_log loop_count length fires].
    rewrite Hnext, Hq, app_nil_l, delivered_app, delivered_accepted.
    rewrite List.filter_app, length_app, heartbeats_enqueued by done.
    rewrite Hrate. lia.
Qed.

Lemma heartbeats_follow_schedule_witness :
  Forall (fun env => healthy env /\ well_formed env /\ get_heartbeat_rate env = 2)
    (replicate 200 busy_env) /\
  exists s',
    run K0 (turns (replicate 200 busy_env)) busy_state = Some s' /\
    length (List.filter is_heartbeat (delivered (socket_log s'))) = 2%nat.
Proof.
  assert (Forall (fun env => healthy env /\ well_formed env /\ get_heartbeat_rate env = 2)
            (replicate 200 busy_env)) as Henvs.
  { apply Forall_replicate. repeat split; cbn; first [lia | unfold CInt.INT_MAX; lia]. }
  split; [exact Henvs |].
  assert (loop_count busy_state + Z.of_nat (length (replicate 200 busy_env))
          <= CInt.INT_MAX) as Hmax.
  { rewrite length_replicate. cbn. unfold CInt.INT_MAX. lia. }
  destruct (heartbeats_follow_schedule K0 2 (replicate 200 busy_env) busy_state Henvs
              eq_refl eq_refl ltac:(cbn; lia) Hmax) as (s' & Hs' & Hcount).
  exists s'. split; [exact Hs' |].
  rewrite Hcount, length_replicate. reflexivity.
Defined.

(** ** Precedence order of what is sent *)

Lemma attempted_refused (l : list Packet) p what :
  attempted (accepted l ++ [(p, Some what)]) = l ++ [p].
Proof.
  unfold attempted. rewrite fmap_app. fold (attempted (accepted l)).
  by rewrite attempted_accepted.
Qed.

Lemma delivered_refused (l : list Packet) p what :
  delivered (accepted l ++ [(p, Some what)]) = l.
Proof. by rewrite delivered_app, delivered_accepted, app_nil_r. Qed.

Lemma sorted_prefix (l1 l2 : list Packet) :
  l1 `prefix_of` l2 -> StronglySorted by_precedence l2 -> StronglySorted by_precedence l1.
Proof. intros [rest ->]. apply StronglySorted_app_1_l. Qed.

Lemma console_count_prefix (l1 l2 : list Packet) :
  l1 `prefix_of` l2 ->
  (length (List.filter is_console l1) <= length (List.filter is_console l2))%nat.
Proof. intros [rest ->]. rewrite List.filter_app, length_app. lia. Qed.

(** C4 (as amended): in every iteration the packets are queued, behind the
    packets an earlier flush left in the queue, stream by stream in the
    fixed order status/heartbeat, parameter dump, RC channels, control
    effort, single-parameter replies, calibration, driver messages, console,
    with at most one console message, whichever of the streams are active;
    the flush hands the queue to the socket from the front, leftover packets
    first, until the queue is empty or a datagram is refused.  When the
    iteration starts with an empty queue, the packets handed to the socket
    are in that order, with at most one console packet. *)
Theorem enqueue_precedence K env s :
  well_formed env ->
  exists s1,
    enqueue K env s = Some s1 /\
    send_queue s1
    = send_queue s ++ status_part K env s ++ dump_part K env s ++ rc_part env s
      ++ effort_part K env s ++ reply_part K env s ++ calibration_part K env s
      ++ driver_part env s ++ console_part env s /\
    Forall (fun p => stream_of p = status_stream) (status_part K env s) /\
    Forall (fun p => stream_of p = dump_stream) (dump_part K env s) /\
    Forall (fun p => stream_of p = rc_stream) (rc_part env s) /\
    Forall (fun p => stream_of p = effort_stream) (effort_part K env s) /\
    Forall (fun p => stream_of p = reply_stream) (reply_part K env s) /\
    Forall (fun p => stream_of p = calibration_stream) (calibration_part K env s) /\
    Forall (fun p => stream_of p = driver_stream) (driver_part env s) /\
    Forall (fun p => stream_of p = console_stream) (console_part env s) /\
    (length (console_part env s) <= 1)%nat /\
    StronglySorted by_precedence (enqueued K env s) /\
    exists calls,
      socket_log (flush env s1).1 = socket_log s1 ++ calls /\
      attempted calls `prefix_of` send_queue s1 /\
      delivered calls ++ send_queue (flush env s1).1 = send_queue s1 /\
      ((calls = accepted (send_queue s1) /\ send_queue (flush env s1).1 = []) \/
       (exists (k : nat) p what,
          send_queue s1 !! k = Some p /\
          send_to env k p = Some what /\
          calls = accepted (take k (send_queue s1)) ++ [(p, Some what)] /\
          send_queue (flush env s1).1 = drop k (send_queue s1))) /\
      (send_queue s = [] ->
       StronglySorted by_precedence (attempted calls) /\
       (length (List.filter is_console (attempted calls)) <= 1)%nat).
Proof.
  intros Hwf. pose proof Hwf as (Hrates & Hmax).
  exists (assembled K env s). split; [by apply enqueue_spec |].
  split; [done |].
  split; [apply status_part_stream |]. split; [by apply dump_part_stream |].
  split; [apply rc_part_stream |]. split; [apply effort_part_stream |].
  split; [apply reply_part_stream |]. split; [apply calibration_part_stream |].
  split; [apply driver_part_stream |]. split; [apply console_part_stream |].
  split; [apply console_part_length |]. split; [by apply enqueued_sorted |].
  assert (forall calls, attempted calls `prefix_of` send_queue (assembled K env s) ->
            send_queue s = [] ->
            StronglySorted by_precedence (attempted calls) /\
            (length (List.filter is_console (attempted calls)) <= 1)%nat) as Hsent.
  { intros calls Hprefix Hq. cbn [send_queue assembled] in Hprefix.
    rewrite Hq, app_nil_l in Hprefix. split.
    - apply (sorted_prefix _ _ Hprefix). by apply enqueued_sorted.
    - pose proof (console_count_prefix _ _ Hprefix) as Hle.
      rewrite filter_console_enqueued in Hle by done.
      pose proof (console_part_length env s). lia. }
  destruct (flush_exact env (assembled K env s))
    as [[Hok ->] | (k & p & what & Hk & Hfail & Hbefore & ->)];
    cbn [fst socket_log send_queue].
  - exists (accepted (send_queue (assembled K env s))).
    assert (attempted (accepted (send_queue (assembled K env s)))
            `prefix_of` send_queue (assembled K env s)) as Hprefix
      by by rewrite attempted_accepted.
    split; [done |]. split; [done |].
    split; [by rewrite delivered_accepted, app_nil_r |].
    split; [by left | by apply Hsent].
  - exists (accepted (take k (send_queue (assembled K env s))) ++ [(p, Some what)]).
    assert (attempted (accepted (take k (send_queue (assembled K env s)))
                       ++ [(p, Some what)])
            `prefix_of` send_queue (assembled K env s)) as Hprefix.
    { rewrite attempted_refused, <- (take_S_r _ _ _ Hk). apply prefix_take. }
    split; [done |]. split; [done |]. split.
    { rewrite delivered_refused. apply take_drop. }
    split; [| by apply Hsent].
    right. by exists k, p, what.
Qed.

Lemma enqueue_precedence_witness :
  well_formed busy_env /\
  exists s s1,
    run K0 refused_trace (constructed idle_link) = Some s /\
    length (send_queue s) = 12%nat /\
    enqueue K0 busy_env s = Some s1 /\
    send_queue s1 = send_queue s ++ enqueued K0 busy_env s /\
    stream_of <$> enqueued K0 busy_env s
    = [effort_stream; driver_stream; driver_stream; console_stream] /\
    delivered (drop (length (socket_log s1)) (socket_log (flush busy_env s1).1))
    = send_queue s1.
Proof.
  assert (well_formed busy_env) as Hwf.
  { repeat split; cbn; unfold CInt.INT_MAX; lia. }
  split; [exact Hwf |].
  destruct (run K0 refused_trace (constructed idle_link)) as [s |] eqn:Hs;
    [| discriminate Hs].
  destruct (enqueue_precedence K0 busy_env s Hwf) as (s1 & Hs1 & Hq & _).
  exists s, s1. split; [done |].
  vm_compute in Hs. injection Hs as <-.
  split; [reflexivity |]. split; [exact Hs1 |]. split; [exact Hq |].
  vm_compute in Hs1. injection Hs1 as <-. split; reflexivity.
Defined.

(** C4 as stated fails in the iteration after a refused send: the twelve
    packets the refused flush left are handed over first, so the socket
    sees a console packet before the control effort of the new iteration and
    accepts two console packets in one iteration. *)
Lemma leftovers_break_precedence :
  exists s s' calls,
    run K0 refused_trace (constructed idle_link) = Some s /\
    iteration K0 busy_env s = Some (s', normal) /\
    socket_log s' = socket_log s ++ calls /\
    (fun p => precedence (stream_of p)) <$> attempted calls
    = [0; 0; 1; 1; 2; 2; 3; 4; 5; 6; 6; 7; 3; 6; 6; 7]%nat /\
    length (List.filter is_console (delivered calls)) = 2%nat /\
    ~ sends_in_precedence_order K0 busy_env s.
Proof.
  destruct (run K0 refused_trace (constructed idle_link)) as [s |] eqn:Hs;
    [| discriminate Hs].
  vm_compute in Hs. injection Hs as <-.
  eexists _, _, _. split; [reflexivity |]. split; [vm_compute; reflexivity |].
  split; [reflexivity |]. split; [reflexivity |]. split; [reflexivity |].
  intros (s' & calls & Hs' & Hlog & _ & Hconsole).
  vm_compute in Hs'. injection Hs' as <-.
  cbn [socket_log app] in Hlog. injection Hlog as <-.
  vm_compute in Hconsole. lia.
Qed.
